(** * minizinc-python: the solver configuration and invocation layer

    A shallow embedding of [src/minizinc/driver.py] and the properties of
    its configuration record ([ExecDriver]), solver discovery
    ([ExecDriver.load_solver]), materialisation ([_gen_solver]), command
    assembly ([solve]), version probing and driver detection.

    Conventions of the embedding.
    - Python text is a Rocq [string]; the development covers ASCII text, on
      which the regular-expression class [\d] is the ten digits [0-9],
      [str.lower] maps [A-Z] to [a-z], and the order of [sorted] is the
      lexicographic order of character codes.
    - A Python object is an address together with the value it holds
      ([pyobj]).  The operator [is] compares addresses, structural equality
      compares values.  [None], [False] and [True] are singletons.
    - An [ExecDriver] instance is its attribute dictionary, a finite map
      from attribute names to objects.
    - A Python call either returns or raises ([outcome]); stateful code
      threads the instance and the outside world explicitly.
    - The host answers through the oracles of [outside].  The library
      functions in front of them are embedded with the checks they make
      on their arguments: [subprocess.run] raises [TypeError] on an
      argument that is neither text nor a path, and [shutil.which] on a
      search path that is a non-empty list.  The names of temporary files
      stand for the candidates that [tempfile] draws at random: nothing
      is used about them but that a candidate is free or taken. *)

From stdpp Require Import gmap strings list sorting pretty.
From Stdlib Require Import ZArith String Ascii.

Local Open Scope string_scope.
Local Open Scope list_scope.

(** ** Python values and objects *)

#[warnings="-register-all"]
Inductive pyval : Type :=
| VNone
| VBool (b : bool)
| VInt (z : Z)
| VStr (s : string)
| VList (l : list pyval)
| VTuple (l : list pyval)
| VDict (d : list (string * pyval))
| VPath (p : string)      (* pathlib.Path *)
| VCDLL (h : nat).        (* ctypes.CDLL, a library handle *)

Record pyobj : Type := Obj { addr : nat; val : pyval }.

(** The three singletons. *)
Definition None_ : pyobj := Obj 0 VNone.
Definition False_ : pyobj := Obj 1 (VBool false).
Definition True_ : pyobj := Obj 2 (VBool true).
(** The constant [""] of the module's code. *)
Definition empty_str : pyobj := Obj 3 (VStr "").

(** [a is b] *)
Definition py_is (a b : pyobj) : bool := Nat.eqb (addr a) (addr b).

(** [o is None] *)
Definition is_None (o : pyobj) : bool := py_is o None_.

(** ** Exceptions and outcomes *)

Inductive exn : Type :=
| LookupError (solver : string) (options : list string)
    (* "No solver id or tag '%s' found, available options: %s"
         % (solver, options) *)
| NotImplementedError (msg : string)
| FileExistsError (msg : string)
| FileNotFoundError
| AttributeError
| KeyError (key : string)
| TypeError
| AssertionError.

(** What a call does: it returns, or it raises.  [Unmodelled] marks the
    few inputs whose Python behaviour the embedding does not describe
    ([str] of a container or of a library handle). *)
Inductive outcome (A : Type) : Type :=
| Return (a : A)
| Raise (e : exn)
| Unmodelled.
Arguments Return {A} a.
Arguments Raise {A} e.
Arguments Unmodelled {A}.

Definition obind {A B} (m : outcome A) (k : A -> outcome B) : outcome B :=
  match m with
  | Return a => k a
  | Raise e => Raise e
  | Unmodelled => Unmodelled
  end.

Declare Scope outcome_scope.
Delimit Scope outcome_scope with outcome.
Notation "x <- m ;; k" := (obind m (fun x => k))
  (at level 100, m at next level, right associativity) : outcome_scope.

Fixpoint omap {A B} (f : A -> outcome B) (l : list A) : outcome (list B) :=
  match l with
  | [] => Return []
  | x :: l' => (y <- f x ;; ys <- omap f l' ;; Return (y :: ys))%outcome
  end.

(** ** Text *)

Definition is_digit (c : ascii) : bool :=
  (48 <=? nat_of_ascii c)%nat && (nat_of_ascii c <=? 57)%nat.

Definition digit_value (c : ascii) : Z := Z.of_nat (nat_of_ascii c) - 48.

(** [int(s)] for a string of decimal digits. *)
Fixpoint int_acc (acc : Z) (s : string) : Z :=
  match s with
  | EmptyString => acc
  | String c s' => int_acc (10 * acc + digit_value c) s'
  end.
Definition int_of_digits (s : string) : Z := int_acc 0 s.

Definition all_digits (s : string) : bool :=
  forallb is_digit (list_ascii_of_string s).

(** The longest run of digits at the head of [s], and what follows it:
    how the greedy [\d+] consumes its input. *)
Fixpoint span_digits (s : string) : string * string :=
  match s with
  | EmptyString => (EmptyString, EmptyString)
  | String c s' =>
      if is_digit c
      then let '(d, r) := span_digits s' in (String c d, r)
      else (EmptyString, s)
  end.

(** [\d+] followed by the rest of the text; fails on an empty run. *)
Definition match_digits (s : string) : option (string * string) :=
  match span_digits s with
  | (EmptyString, _) => None
  | (d, r) => Some (d, r)
  end.

(** [\.] *)
Definition match_dot (s : string) : option string :=
  match s with
  | String "." r => Some r
  | _ => None
  end.

(** The pattern [(\d+)\.(\d+)\.(\d+)] matched at the head of [s]: the three
    groups. *)
Definition match_triple (s : string) : option (string * string * string) :=
  match match_digits s with
  | None => None
  | Some (d1, r1) =>
      match match_dot r1 with
      | None => None
      | Some r2 =>
          match match_digits r2 with
          | None => None
          | Some (d2, r3) =>
              match match_dot r3 with
              | None => None
              | Some r4 =>
                  match match_digits r4 with
                  | None => None
                  | Some (d3, _) => Some (d1, d2, d3)
                  end
              end
          end
      end
  end.

(** A literal prefix of a pattern: [strip_prefix p s] is what follows [p]
    at the head of [s]. *)
Fixpoint strip_prefix (p s : string) : option string :=
  match p, s with
  | EmptyString, _ => Some s
  | String a p', String b s' => if Ascii.eqb a b then strip_prefix p' s' else None
  | String _ _, EmptyString => None
  end.

(** [re.search(pattern, s)]: the match at the leftmost position where the
    pattern matches; [here] is the pattern matched at the head. *)
Fixpoint re_search {G : Type} (here : string -> option G) (s : string) : option G :=
  match here s with
  | Some g => Some g
  | None =>
      match s with
      | EmptyString => None
      | String _ s' => re_search here s'
      end
  end.

(** [re.search(r"(\d+)\.(\d+)\.(\d+)", s)] *)
Definition search_triple (s : string) : option (string * string * string) :=
  re_search match_triple s.

(** [re.search(r"version (\d+)\.(\d+)\.(\d+)", s)] *)
Definition match_version_triple (s : string) : option (string * string * string) :=
  match strip_prefix "version " s with
  | Some r => match_triple r
  | None => None
  end.
Definition search_version_triple (s : string) : option (string * string * string) :=
  re_search match_version_triple s.

(** [[int(i) for i in match.groups()]]; a failed search gives
    [match = None], whose [.groups()] raises [AttributeError]. *)
Definition groups_to_ints (m : option (string * string * string)) : outcome (list Z) :=
  match m with
  | Some (a, b, c) => Return [int_of_digits a; int_of_digits b; int_of_digits c]
  | None => Raise AttributeError
  end.

(** [tuple(l)] of a list of integers. *)
Definition int_tuple (l : list Z) : pyval := VTuple (map VInt l).

(** [str.lower] *)
Definition lower_char (c : ascii) : ascii :=
  let n := nat_of_ascii c in
  if (65 <=? n)%nat && (n <=? 90)%nat then ascii_of_nat (n + 32) else c.
Fixpoint lower (s : string) : string :=
  match s with
  | EmptyString => EmptyString
  | String c s' => String (lower_char c) (lower s')
  end.

(** [s.split(sep)] for a one-character separator: never an empty list. *)
Fixpoint split_on (sep : ascii) (s : string) : list string :=
  match s with
  | EmptyString => [EmptyString]
  | String c s' =>
      if Ascii.eqb c sep then EmptyString :: split_on sep s'
      else match split_on sep s' with
           | h :: t => String c h :: t
           | [] => [String c EmptyString]
           end
  end.

(** [s.split(".")[-1]] *)
Definition last_segment (s : string) : string :=
  List.last (split_on "." s) EmptyString.

(** [a <= b] on text: lexicographic on character codes. *)
Fixpoint str_leb (a b : string) : bool :=
  match a, b with
  | EmptyString, _ => true
  | String _ _, EmptyString => false
  | String x a', String y b' =>
      if (nat_of_ascii x <? nat_of_ascii y)%nat then true
      else if (nat_of_ascii y <? nat_of_ascii x)%nat then false
      else str_leb a' b'
  end.
Definition str_le (a b : string) : Prop := str_leb a b = true.
Definition str_lt (a b : string) : Prop := str_le a b /\ a <> b.

#[local] Instance str_le_dec a b : Decision (str_le a b).
Proof. unfold str_le. apply _. Defined.
#[local] Instance str_lt_dec a b : Decision (str_lt a b).
Proof. unfold str_lt. apply _. Defined.

(** [sub in s] for two strings. *)
Fixpoint is_prefix (p s : string) : bool :=
  match p, s with
  | EmptyString, _ => true
  | String a p', String b s' => Ascii.eqb a b && is_prefix p' s'
  | String _ _, EmptyString => false
  end.
Fixpoint substring_in (sub s : string) : bool :=
  is_prefix sub s ||
  match s with
  | EmptyString => false
  | String _ s' => substring_in sub s'
  end.

(** The characters of a string, each a one-character string. *)
Definition chars_of (s : string) : list string :=
  map (fun c => String c EmptyString) (list_ascii_of_string s).

(** ** Operations on values *)

(** [bool(v)] *)
Definition truthy (v : pyval) : bool :=
  match v with
  | VNone => false
  | VBool b => b
  | VInt z => negb (Z.eqb z 0)
  | VStr s => negb (String.eqb s EmptyString)
  | VList l | VTuple l => match l with [] => false | _ => true end
  | VDict d => match d with [] => false | _ => true end
  | VPath _ | VCDLL _ => true
  end.

(** [v == s] for a string [s]: only a string equals a string. *)
Definition eq_str (s : string) (v : pyval) : bool :=
  match v with
  | VStr s' => String.eqb s s'
  | _ => false
  end.

(** [s in v] for a string [s]: membership in a list or tuple, substring of
    a string, key of a dict; the other values are not containers. *)
Definition str_in (s : string) (v : pyval) : outcome bool :=
  match v with
  | VList l | VTuple l => Return (existsb (eq_str s) l)
  | VStr s' => Return (substring_in s s')
  | VDict d => Return (existsb (fun kv => String.eqb s kv.1) d)
  | _ => Raise TypeError
  end.

(** The items [for x in v] runs over. *)
Definition py_iter (v : pyval) : outcome (list pyval) :=
  match v with
  | VList l | VTuple l => Return l
  | VStr s => Return (map VStr (chars_of s))
  | VDict d => Return (map (fun kv => VStr kv.1) d)
  | _ => Raise TypeError
  end.

(** [hash(v)] is defined: lists and dicts are unhashable. *)
Fixpoint hashable (v : pyval) : bool :=
  match v with
  | VList _ | VDict _ => false
  | VTuple l => forallb hashable l
  | _ => true
  end.

(** [str(i)] for an integer: decimal digits, with a sign. *)
Definition str_of_Z (z : Z) : string := pretty z.

(** [str(v)] *)
Definition py_str (v : pyval) : outcome string :=
  match v with
  | VNone => Return "None"
  | VBool true => Return "True"
  | VBool false => Return "False"
  | VInt z => Return (str_of_Z z)
  | VStr s => Return s
  | VPath p => Return p
  | VList _ | VTuple _ | VDict _ | VCDLL _ => Unmodelled
  end.

(** ** JSON documents *)

#[warnings="-register-all"]
Inductive json : Type :=
| JNull
| JBool (b : bool)
| JNum (z : Z)
| JStr (s : string)
| JArr (items : list json)
| JObj (members : list (string * json)).

(** Members in the order of their keys, as [sort_keys=True] prints them. *)
Definition sort_members {A} (m : list (string * A)) : list (string * A) :=
  merge_sort (fun a b => str_le a.1 b.1) m.

(** [json.dumps(v, sort_keys=True, indent=4)]: the document printed.  Paths
    and library handles are not JSON serializable. *)
Fixpoint json_dumps (v : pyval) : outcome json :=
  match v with
  | VNone => Return JNull
  | VBool b => Return (JBool b)
  | VInt z => Return (JNum z)
  | VStr s => Return (JStr s)
  | VList l | VTuple l =>
      (items <- (fix go (l : list pyval) : outcome (list json) :=
                   match l with
                   | [] => Return []
                   | x :: r => (y <- json_dumps x ;; ys <- go r ;; Return (y :: ys))
                   end) l ;;
       Return (JArr items))%outcome
  | VDict d =>
      (members <- (fix go (d : list (string * pyval))
                     : outcome (list (string * json)) :=
                     match d with
                     | [] => Return []
                     | (k, x) :: r =>
                         (y <- json_dumps x ;; ys <- go r ;; Return ((k, y) :: ys))
                     end) d ;;
       Return (JObj (sort_members members)))%outcome
  | VPath _ | VCDLL _ => Raise TypeError
  end.

(** ** The outside world *)

(** [subprocess.CompletedProcess] *)
Record completed : Type :=
  Completed { returncode : Z; stdout : string; stderr : string }.

(** The external result decoder [Result.from_process], kept opaque. *)
Inductive Result : Type := from_process (output : completed).

(** A dict with string keys, as [json.loads] builds one for a JSON
    object. *)
Definition dict_get {A} (d : list (string * A)) (k : string) : option A :=
  snd <$> List.find (fun kv => String.eqb k kv.1) d.

(** [d[k]] *)
Definition getitem {A} (d : list (string * A)) (k : string) : outcome A :=
  match dict_get d k with
  | Some v => Return v
  | None => Raise (KeyError k)
  end.

(** A solver descriptor of the registry response. *)
Abbreviation descriptor := (list (string * pyobj)).

(** What lies outside the program and answers it: the base tool, the
    dynamic loader and the executable search of the host. *)
Record outside : Type := Outside {
  (* decoded stdout of [driver --version] *)
  tool_version : pyval -> outcome string;
  (* [json.loads] of the stdout of [driver --solvers-json] *)
  tool_solvers : pyval -> outcome (list descriptor);
  (* any other command: the completed process, or the error of a launch
     that fails (a missing executable gives FileNotFoundError) *)
  tool_run : list pyval -> outcome completed;
  (* [cdll.LoadLibrary(name)] under an environment: a handle, or OSError *)
  LoadLibrary : gmap string string -> string -> option nat;
  (* [shutil.which(name, path=path)] for a search path that the function
     accepts; [None] is the PATH of the host *)
  which : string -> option (list string) -> option string
}.

(** The state of the interpreter and of the host that the program reads
    and writes. *)
Record world : Type := World {
  next_addr : nat;                      (* the next fresh object address *)
  default_driver : pyobj;               (* the module global *)
  environ : gmap string string;         (* os.environ *)
  tmp_seq : nat;                        (* the name supply of tempfile *)
  files : gmap string (option json);    (* temporary files and their content *)
  run_calls : list (list pyval);        (* the commands given to subprocess.run *)
  ext : outside
}.

Definition set_next_addr (n : nat) (w : world) : world :=
  World n (default_driver w) (environ w) (tmp_seq w) (files w) (run_calls w) (ext w).
Definition set_environ (e : gmap string string) (w : world) : world :=
  World (next_addr w) (default_driver w) e (tmp_seq w) (files w) (run_calls w) (ext w).
Definition set_tmp_seq (n : nat) (w : world) : world :=
  World (next_addr w) (default_driver w) (environ w) n (files w) (run_calls w) (ext w).
Definition set_files (f : gmap string (option json)) (w : world) : world :=
  World (next_addr w) (default_driver w) (environ w) (tmp_seq w) f (run_calls w) (ext w).
Definition set_run_calls (c : list (list pyval)) (w : world) : world :=
  World (next_addr w) (default_driver w) (environ w) (tmp_seq w) (files w) c (ext w).

(** ** Stateful computations *)

(** A computation over a state [St]: an outcome and the state it leaves.
    A raised exception keeps the state reached so far. *)
Definition M (St A : Type) : Type := St -> outcome A * St.

Definition mret {St A} (a : A) : M St A := fun s => (Return a, s).
Definition mraise {St A} (e : exn) : M St A := fun s => (Raise e, s).
Definition mbind {St A B} (m : M St A) (k : A -> M St B) : M St B :=
  fun s =>
    match m s with
    | (Return a, s') => k a s'
    | (Raise e, s') => (Raise e, s')
    | (Unmodelled, s') => (Unmodelled, s')
    end.
(** An outcome computed without touching the state. *)
Definition mlift {St A} (o : outcome A) : M St A := fun s => (o, s).

(** [try: m finally: f]: [f] runs whatever [m] did; an exception of [f]
    replaces the outcome of [m]. *)
Definition try_finally {St A} (m : M St A) (f : M St unit) : M St A :=
  fun s =>
    let '(r, s1) := m s in
    match f s1 with
    | (Return _, s2) => (r, s2)
    | (Raise e, s2) => (Raise e, s2)
    | (Unmodelled, s2) => (Unmodelled, s2)
    end.

Declare Scope M_scope.
Delimit Scope M_scope with M.
Notation "x <- m ;; k" := (mbind m (fun x => k))
  (at level 100, m at next level, right associativity) : M_scope.
Notation "m ;; k" := (mbind m (fun _ => k))
  (at level 100, right associativity) : M_scope.

(** A fresh object holding [v]. *)
Definition alloc {St} (v : pyval) : M (St * world) pyobj :=
  fun '(s, w) => (Return (Obj (next_addr w) v), (s, set_next_addr (S (next_addr w)) w)).

(** [subprocess.run(cmd, capture_output=True, ...)]: the call is recorded
    and the outside answers. *)
Definition log_call {St} (cmd : list pyval) : M (St * world) unit :=
  fun '(s, w) => (Return tt, (s, set_run_calls (run_calls w ++ [cmd]) w)).

(** What [subprocess.run] takes as an argument of the command: text or a
    path.  Anything else, an integer included, raises [TypeError] before
    a process is started. *)
Definition launchable (v : pyval) : bool :=
  match v with
  | VStr _ | VPath _ => true
  | _ => false
  end.

(** What [subprocess.run(cmd, capture_output=True, check=False)] gives:
    the completed process whatever its exit status, or the exception of
    a command that cannot be started. *)
Definition launch (o : outside) (cmd : list pyval) : outcome completed :=
  if forallb launchable cmd then tool_run o cmd else Raise TypeError.

Definition subprocess_run {St} (cmd : list pyval) : M (St * world) completed :=
  (log_call cmd ;; fun '(s, w) => (launch (ext w) cmd, (s, w)))%M.

(** ** tempfile *)

Definition TMP_MAX : nat := 100 * 100.

(** The [n]-th candidate name.  [tempfile] puts eight random characters
    between the prefix and the suffix, in the directory that [TMPDIR]
    names; the candidates here stand for those, and the properties below
    use nothing about a name but that no file bears it. *)
Definition tmp_name (prefix suffix : string) (n : nat) : string :=
  "/tmp/" +:+ prefix +:+ pretty n +:+ suffix.

(** [tempfile.NamedTemporaryFile(prefix=..., suffix=...)]: an empty file
    under a name no existing file has.  The candidate names are drawn from
    a sequence; after [TMP_MAX] taken names the call gives up. *)
Definition NamedTemporaryFile {St} (prefix suffix : string) : M (St * world) string :=
  fun '(s, w) =>
    match List.find (fun n => bool_decide (files w !! tmp_name prefix suffix n = None))
                    (seq (tmp_seq w) TMP_MAX) with
    | Some n =>
        let name := tmp_name prefix suffix n in
        (Return name, (s, set_files (<[name := None]> (files w)) (set_tmp_seq (S n) w)))
    | None => (Raise (FileExistsError "No usable temporary file name found"), (s, w))
    end.

(** [file.write(data); file.flush(); file.seek(0)] *)
Definition file_write {St} (name : string) (doc : json) : M (St * world) unit :=
  fun '(s, w) => (Return tt, (s, set_files (<[name := Some doc]> (files w)) w)).

(** [file.close()] of a named temporary file: the file is unlinked, which
    fails when it is no longer there. *)
Definition file_close {St} (name : string) : M (St * world) unit :=
  fun '(s, w) =>
    match files w !! name with
    | Some _ => (Return tt, (s, set_files (delete name (files w)) w))
    | None => (Raise FileNotFoundError, (s, w))
    end.

(** [required_version] *)
Definition required_version : list Z := [2; 2; 0]%Z.

(** [a >= b] on tuples of integers: lexicographic. *)
Fixpoint tuple_ge (a b : list Z) : bool :=
  match a, b with
  | _, [] => true
  | [], _ :: _ => false
  | x :: a', y :: b' =>
      if (y <? x)%Z then true else if (x <? y)%Z then false else tuple_ge a' b'
  end.


(** ** The class [ExecDriver] *)

Module ExecDriver.

(** *** The instance and its attributes *)

(** The attribute dictionary of an instance. *)
Abbreviation inst := (gmap string pyobj).

(** [getattr(self, key, default)] for a data attribute.  The attributes
    read this way have no class-level value: the class body only annotates
    them. *)
Definition getattr_default (self : inst) (key : string) (dflt : pyobj) : pyobj :=
  default dflt (self !! key).

(** [self.key], raising [AttributeError] when the attribute is not set. *)
Definition getattr (self : inst) (key : string) : outcome pyobj :=
  match self !! key with
  | Some o => Return o
  | None => Raise AttributeError
  end.

(** [object.__setattr__(self, key, value)] *)
Definition object_setattr (key : string) (value : pyobj) (self : inst) : inst :=
  <[key := value]> self.

(** The attribute names listed in [ExecDriver.__setattr__]. *)
Definition intercepted : list string :=
  ["version"; "executable"; "mznlib"; "tags"; "stdFlags"; "extraFlags";
   "supportsMzn"; "supportsFzn"; "needsSolns2Out"; "needsMznExecutable";
   "needsStdlibDir"; "isGUIApplication"].

(** The condition of the [if] in [__setattr__]:
    [key in [...] and getattr(self, key, None) is not value]. *)
Definition invalidates (key : string) (value : pyobj) (self : inst) : bool :=
  bool_decide (key ∈ intercepted)
  && negb (py_is (getattr_default self key None_) value).

(** [ExecDriver.__setattr__].  The statement [self.id = None] in its body
    is again an attribute assignment and so re-enters the method with the
    key ["id"]; [setattr_fuel] follows that recursion with a bound on its
    depth. *)
Fixpoint setattr_fuel (fuel : nat) (key : string) (value : pyobj) (self : inst)
  : option inst :=
  match fuel with
  | O => None
  | S fuel' =>
      match (if invalidates key value self
             then setattr_fuel fuel' "id" None_ self
             else Some self) with
      | Some self1 => Some (object_setattr key value self1)
      | None => None
      end
  end.

(** The same method with the inner assignment resolved: ["id"] is not an
    intercepted name, so the inner call stores [None] directly
    ([setattr_fuel_spec] below). *)
Definition __setattr__ (key : string) (value : pyobj) (self : inst) : inst :=
  object_setattr key value
    (if invalidates key value self then object_setattr "id" None_ self else self).

(** *** Serialisation *)

(** [self.name.lower()]: only a string has the method. *)
Definition name_lower (name : pyval) : outcome string :=
  match name with
  | VStr n => Return (lower n)
  | _ => Raise AttributeError
  end.

(** [ExecDriver.to_json] *)
Definition to_json (self : inst) : outcome json :=
  (name <- getattr self "name" ;;
   version <- getattr self "version" ;;
   parts <- py_iter (val version) ;;
   strs <- omap py_str parts ;;
   mznlib <- getattr self "mznlib" ;;
   tags <- getattr self "tags" ;;
   executable <- getattr self "executable" ;;
   supportsMzn <- getattr self "supportsMzn" ;;
   supportsFzn <- getattr self "supportsFzn" ;;
   needsSolns2Out <- getattr self "needsSolns2Out" ;;
   needsMznExecutable <- getattr self "needsMznExecutable" ;;
   needsStdlibDir <- getattr self "needsStdlibDir" ;;
   isGUIApplication <- getattr self "isGUIApplication" ;;
   let info :=
     [("name", val name);
      ("version", VStr (String.concat "." strs));
      ("mznlib", val mznlib);
      ("tags", val tags);
      ("executable", val executable);
      ("supportsMzn", val supportsMzn);
      ("supportsFzn", val supportsFzn);
      ("needsSolns2Out", val needsSolns2Out);
      ("needsMznExecutable", val needsMznExecutable);
      ("needsStdlibDir", val needsStdlibDir);
      ("isGUIApplication", val isGUIApplication)] in
   id <- getattr self "id" ;;
   id_entry <- (if is_None id
                then (n <- name_lower (val name) ;;
                      Return (VStr ("org.minizinc.python." +:+ n)))
                else Return (val id)) ;;
   json_dumps (VDict (info ++ [("id", id_entry)])))%outcome.

(** *** Methods: computations over the instance and the world *)

Abbreviation Method := (M (inst * world)).

(** [self.key = value] *)
Definition assign (key : string) (value : pyobj) : Method unit :=
  fun '(self, w) => (Return tt, (__setattr__ key value self, w)).

(** [self.key] *)
Definition read (key : string) : Method pyobj :=
  fun '(self, w) => (getattr self key, (self, w)).

(** [ExecDriver.minizinc_version] *)
Definition minizinc_version : Method (list Z) :=
  (driver <- read "driver" ;;
   log_call [val driver; VStr "--version"] ;;
   output <- (fun '(self, w) => (tool_version (ext w) (val driver), (self, w))) ;;
   mlift (groups_to_ints (search_version_triple output)))%M.

(** [Driver.__init__] *)
Definition Driver__init__ (name : pyobj) : Method unit :=
  (assign "name" name ;;
   v <- minizinc_version ;;
   if tuple_ge v required_version then mret tt else mraise AssertionError)%M.

(** [re.search(r"(\d+)\.(\d+)\.(\d+)", version)]: the argument has to be
    text. *)
Definition search_version_arg (version : pyval)
  : outcome (option (string * string * string)) :=
  match version with
  | VStr s => Return (search_triple s)
  | _ => Raise TypeError
  end.

(** [ExecDriver.__init__] *)
Definition __init__ (name version executable minizinc : pyobj) : Method unit :=
  (minizinc <- (fun '(self, w) =>
                  (Return (if is_None minizinc then default_driver w else minizinc),
                   (self, w))) ;;
   assign "driver" minizinc ;;
   (* Set required fields *)
   Driver__init__ name ;;
   assign "id" None_ ;;
   match_ <- mlift (search_version_arg (val version)) ;;
   ints <- mlift (groups_to_ints match_) ;;
   v <- alloc (int_tuple ints) ;;
   assign "version" v ;;
   assign "executable" executable ;;
   (* Initialise optional fields *)
   assign "mznlib" empty_str ;;
   l <- alloc (VList []) ;; assign "tags" l ;;
   l <- alloc (VList []) ;; assign "stdFlags" l ;;
   l <- alloc (VList []) ;; assign "extraFlags" l ;;
   assign "supportsMzn" False_ ;;
   assign "supportsFzn" True_ ;;
   assign "needsSolns2Out" False_ ;;
   assign "needsMznExecutable" False_ ;;
   assign "needsStdlibDir" False_ ;;
   assign "isGUIApplication" False_)%M.

(** A method run on a new, still empty instance, as [cls(...)] runs
    [__init__]: the instance it leaves. *)
Definition construct {A} (m : Method A) (w : world) : outcome inst * world :=
  match m (∅, w) with
  | (Return _, (self, w')) => (Return self, w')
  | (Raise e, (_, w')) => (Raise e, w')
  | (Unmodelled, (_, w')) => (Unmodelled, w')
  end.

(** [ExecDriver(name, version, executable, minizinc)] *)
Definition new (name version executable minizinc : pyobj) (w : world)
  : outcome inst * world :=
  construct (__init__ name version executable minizinc) w.

(** *** Discovery *)

(** The list [s_names] of one descriptor:
    [[s["id"], s["id"].split(".")[-1]]] extended by [s.get("tags", [])]. *)
Definition s_names (s : descriptor) : outcome (list pyval) :=
  (id <- getitem s "id" ;;
   seg <- match val id with
          | VStr i => Return (VStr (last_segment i))
          | _ => Raise AttributeError
          end ;;
   tags <- py_iter (match dict_get s "tags" with
                    | Some t => val t
                    | None => VList []
                    end) ;;
   Return ([val id; seg] ++ tags))%outcome.

(** The loop over the registry.  [names] is the set built so far, kept as
    the list of its elements; [set(s_names)] needs hashable elements.  The
    result is [info] and [names] at the end of the loop. *)
Fixpoint find_solver (solver : string) (solvers : list descriptor) (names : list pyval)
  : outcome (option descriptor * list pyval) :=
  match solvers with
  | [] => Return (None, names)
  | s :: rest =>
      (ns <- s_names s ;;
       if forallb hashable ns then
         let names' := names ++ ns in
         if existsb (eq_str solver) ns
         then Return (Some s, names')
         else find_solver solver rest names'
       else Raise TypeError)%outcome
  end.

Definition as_str (v : pyval) : option string :=
  match v with
  | VStr s => Some s
  | _ => None
  end.

(** [sorted([x for x in names])].  A non-empty [names] holds the identifier
    of the first descriptor, a string, and text does not compare with any
    other kind of value. *)
Definition sorted_names (names : list pyval) : outcome (list string) :=
  match mapM as_str names with
  | Some l => Return (merge_sort str_le (remove_dups l))
  | None => Raise TypeError
  end.

(** [info.get(key, default)] *)
Definition info_get (info : descriptor) (key : string) (dflt : pyobj) : pyobj :=
  default dflt (dict_get info key).

(** [ret.key = info.get(key, ret.mznlib)] *)
Definition overlay (info : descriptor) (key : string) : Method unit :=
  (dflt <- read "mznlib" ;;
   assign key (info_get info key dflt))%M.

(** The body of [ExecDriver.load_solver]; the instance of the state is
    [ret], empty until [cls(...)] initialises it. *)
Definition load_solver_body (solver : string) (driver : pyobj) : Method unit :=
  ((* Find all available solvers *)
   log_call [val driver; VStr "--solvers-json"] ;;
   solvers <- (fun '(self, w) => (tool_solvers (ext w) (val driver), (self, w))) ;;
   (* Find the specified solver *)
   found <- mlift (find_solver solver solvers []) ;;
   match found with
   | (None, names) =>
       options <- mlift (sorted_names names) ;;
       mraise (LookupError solver options)
   | (Some info, _) =>
       (* Initialize driver *)
       name <- mlift (getitem info "name") ;;
       version <- mlift (getitem info "version") ;;
       executable <- mlift (getitem info "executable") ;;
       __init__ name version executable driver ;;
       (* Set all specified options *)
       overlay info "mznlib" ;;
       overlay info "tags" ;;
       overlay info "stdFlags" ;;
       overlay info "extraFlags" ;;
       overlay info "supportsMzn" ;;
       overlay info "supportsFzn" ;;
       overlay info "needsSolns2Out" ;;
       overlay info "needsMznExecutable" ;;
       overlay info "needsStdlibDir" ;;
       overlay info "isGUIApplication" ;;
       id <- mlift (getitem info "id") ;;
       assign "id" id
   end)%M.

(** [ExecDriver.load_solver] *)
Definition load_solver (solver : string) (driver : pyobj) (w : world)
  : outcome inst * world :=
  construct (load_solver_body solver driver) w.

(** *** Materialisation *)

(** [_gen_solver] up to its [yield]: the temporary file opened, if any,
    and the value yielded.  When [to_json] raises, the exception leaves
    the generator before its [try]: the file just created is not closed
    by this code, and stays until the interpreter reclaims the file
    object. *)
Definition gen_solver_enter : Method (option string * pyobj) :=
  (id <- read "id" ;;
   if is_None id then
     name <- NamedTemporaryFile "minizinc_solver_" ".msc" ;;
     doc <- (fun '(self, w) => (to_json self, (self, w))) ;;
     file_write name doc ;;
     file_name <- alloc (VStr name) ;;
     assign "id" file_name ;;
     solver <- read "id" ;;
     mret (Some name, solver)
   else
     mret (None, id))%M.

(** The [finally] block of [_gen_solver]. *)
Definition gen_solver_exit (file : option string) : Method unit :=
  match file with
  | Some name => (file_close name ;; assign "id" None_)%M
  | None => mret tt
  end.

(** [with self._gen_solver() as solver: body] *)
Definition _gen_solver {A} (body : pyobj -> Method A) : Method A :=
  (entered <- gen_solver_enter ;;
   try_finally (body entered.2) (gen_solver_exit entered.1))%M.

(** *** Invocation *)

(** One gated option of [solve]: when [requested], the flag has to be in
    [self.stdFlags], and [tokens] are appended to the command. *)
Definition gated (requested : bool) (flag : string) (tokens : list pyval)
    (cmd : list pyval) : Method (list pyval) :=
  if requested then
    (stdFlags <- read "stdFlags" ;;
     present <- mlift (str_in flag (val stdFlags)) ;;
     if negb present
     then mraise (NotImplementedError
                    ("Solver does not support the " +:+ flag +:+ " flag"))
     else mret (cmd ++ tokens))%M
  else mret cmd.

(** The command that [solve] assembles inside the scope. *)
Definition build_cmd (solver : pyobj) (files_ : list pyval)
    (processes random_seed free_search : pyobj) : Method (list pyval) :=
  (driver <- read "driver" ;;
   (* Set standard command line arguments *)
   let cmd := [val driver; VStr "--solver"; val solver;
               VStr "--output-mode"; VStr "json"; VStr "--output-time"] in
   (* Set number of processes to be used *)
   cmd <- gated (negb (is_None processes)) "-p" [VStr "-p"; val processes] cmd ;;
   (* Set random seed to be used *)
   cmd <- gated (negb (is_None random_seed)) "-r" [VStr "-r"; val random_seed] cmd ;;
   (* Enable free search if specified *)
   cmd <- gated (truthy (val free_search)) "-f" [VStr "-f"] cmd ;;
   (* Add files as last arguments *)
   mret (cmd ++ files_))%M.

(** [ExecDriver.solve]; [files_] are the items of [instance.files]. *)
Definition solve (files_ : list pyval) (processes random_seed free_search : pyobj)
  : Method Result :=
  _gen_solver (fun solver =>
    (cmd <- build_cmd solver files_ processes random_seed free_search ;;
     (* Run the MiniZinc process *)
     output <- subprocess_run cmd ;;
     mret (from_process output))%M).

End ExecDriver.

(** ** Module-level functions *)

(** [is_library] *)
Definition is_library (elem : pyobj) : bool :=
  match val elem with
  | VCDLL _ => true
  | _ => false
  end.

(** What the module-level [load_solver] returns: an [ExecDriver], or the
    [None] of the [LibDriver] stub, whose [load_solver] is the inherited
    abstract method with an empty body. *)
Inductive loaded : Type :=
| LoadedExec (d : ExecDriver.inst)
| LoadedNone.

(** [load_solver] *)
Definition load_solver (solver : string) (minizinc : pyobj) (w : world)
  : outcome loaded * world :=
  let minizinc := if is_None minizinc then default_driver w else minizinc in
  if is_library minizinc then
    (Return LoadedNone, w)
  else if negb (is_None minizinc) then
    match ExecDriver.load_solver solver minizinc w with
    | (Return d, w') => (Return (LoadedExec d), w')
    | (Raise e, w') => (Raise e, w')
    | (Unmodelled, w') => (Unmodelled, w')
    end
  else
    (Raise (FileExistsError "MiniZinc driver not found"), w).

(** [os.path.dirname(name)] is not empty: the name has a directory part. *)
Definition has_dirname (name : string) : bool := substring_in "/" name.

(** [shutil.which(name, path=path)].  A name with a directory part is
    checked as it is, and the search path is not looked at.  Otherwise the
    search path has to be text: [None] stands for the [PATH] of the host,
    an empty list is falsy and gives [None], and a non-empty list raises
    [TypeError] where the function decodes its path with [os.fsdecode]
    (interpreters before 3.8 raise [AttributeError] there, at
    [path.split]). *)
Definition shutil_which (o : outside) (name : string) (path : option (list string))
  : outcome (option string) :=
  if has_dirname name then Return (which o name None)
  else
    match path with
    | None => Return (which o name None)
    | Some [] => Return None
    | Some (_ :: _) => Raise TypeError
    end.

(** [find_minizinc]; [path = None] is the default.  [os.pathsep] is [":"].
    The assignment to [os.environ] stays in force when [LoadLibrary] raises:
    the statement that restores the backup is skipped.  The handler of
    [OSError] catches nothing that [shutil.which] raises inside it. *)
Definition find_minizinc (name : string) (path : option (list string)) (w : world)
  : outcome pyobj * world :=
  let attempt :=
    (* Try to load the MiniZinc C API *)
    match path with
    | None => (LoadLibrary (ext w) (environ w) name, w)
    | Some dirs =>
        let env_backup := environ w in
        let w1 :=
          set_environ (<["LD_LIBRARY_PATH" := String.concat ":" dirs]> (environ w)) w in
        match LoadLibrary (ext w) (environ w1) name with
        | Some h => (Some h, set_environ env_backup w1)
        | None => (None, w1)
        end
    end in
  match attempt with
  | (Some h, w') =>
      (Return (Obj (next_addr w') (VCDLL h)), set_next_addr (S (next_addr w')) w')
  | (None, w') =>
      (* Try to locate the MiniZinc executable *)
      match shutil_which (ext w') name path with
      | Return (Some p) =>
          if truthy (VStr p)
          then (Return (Obj (next_addr w') (VPath p)), set_next_addr (S (next_addr w')) w')
          else (Return (Obj (next_addr w') (VStr p)), set_next_addr (S (next_addr w')) w')
      | Return None => (Return None_, w')
      | Raise e => (Raise e, w')
      | Unmodelled => (Unmodelled, w')
      end
  end.

(** ** Vocabulary of the specification *)

(** *** Occurrences of the version pattern *)

(** A non-empty run of decimal digits: what [\d+] matches. *)
Definition digits (d : string) : Prop := d ≠ "" ∧ all_digits d = true.
(** The text begins with a digit. *)
Definition leading_digit (s : string) : bool :=
  match s with String c _ => is_digit c | EmptyString => false end.
(** The pattern [lit(\d+)\.(\d+)\.(\d+)], for a literal text [lit], occurs
    in [s] right after [pre], with the groups [g], and [rest] follows. *)
Definition occurs (lit s pre : string) (g : string * string * string)
    (rest : string) : Prop :=
  s = pre +:+ lit +:+ g.1.1 +:+ "." +:+ g.1.2 +:+ "." +:+ g.2 +:+ rest
  ∧ digits g.1.1 ∧ digits g.1.2 ∧ digits g.2.
(** The first occurrence: no occurrence starts further left, and each
    group takes all the digits there are. *)
Definition first_occurrence (lit s : string) (g : string * string * string) : Prop :=
  ∃ pre rest,
    occurs lit s pre g rest ∧ leading_digit rest = false
    ∧ ∀ pre' g' rest', occurs lit s pre' g' rest' →
                       (String.length pre ≤ String.length pre')%nat.
Definition no_occurrence (lit s : string) : Prop :=
  ∀ pre g rest, ¬ occurs lit s pre g rest.

(** [s[n:]] *)
Fixpoint sdrop (n : nat) (s : string) : string :=
  match n, s with
  | O, _ => s
  | S n', String _ s' => sdrop n' s'
  | S _, EmptyString => EmptyString
  end.

(** The pattern [lit(\d+)\.(\d+)\.(\d+)] matched at the head of [s]. *)
Definition match_lit_triple (lit s : string) : option (string * string * string) :=
  match strip_prefix lit s with Some r => match_triple r | None => None end.

(** *** The document of [to_json] *)

(** The keys of the document, in their order. *)
Definition to_json_keys : list string :=
  ["executable"; "id"; "isGUIApplication"; "mznlib"; "name";
   "needsMznExecutable"; "needsSolns2Out"; "needsStdlibDir";
   "supportsFzn"; "supportsMzn"; "tags"; "version"].

(** The attributes whose value the document carries as it is. *)
Definition copied_fields : list string :=
  ["name"; "mznlib"; "tags"; "executable"; "supportsMzn"; "supportsFzn";
   "needsSolns2Out"; "needsMznExecutable"; "needsStdlibDir"; "isGUIApplication"].

(** *** Construction and discovery *)

(** What [__init__] leaves in the instance: the required fields from its
    arguments and the default of every optional field. *)
Record init_post (name executable minizinc : pyobj) (ints : list Z)
    (self : ExecDriver.inst) : Prop := {
  init_driver : self !! "driver" = Some minizinc;
  init_name : self !! "name" = Some name;
  init_id : self !! "id" = Some None_;
  init_version : val <$> self !! "version" = Some (int_tuple ints);
  init_executable : self !! "executable" = Some executable;
  init_mznlib : self !! "mznlib" = Some empty_str;
  init_tags : val <$> self !! "tags" = Some (VList []);
  init_stdFlags : val <$> self !! "stdFlags" = Some (VList []);
  init_extraFlags : val <$> self !! "extraFlags" = Some (VList []);
  init_supportsMzn : self !! "supportsMzn" = Some False_;
  init_supportsFzn : self !! "supportsFzn" = Some True_;
  init_needsSolns2Out : self !! "needsSolns2Out" = Some False_;
  init_needsMznExecutable : self !! "needsMznExecutable" = Some False_;
  init_needsStdlibDir : self !! "needsStdlibDir" = Some False_;
  init_isGUIApplication : self !! "isGUIApplication" = Some False_
}.

(** The optional fields that [load_solver] overlays after [mznlib]. *)
Definition overlaid_fields : list string :=
  ["tags"; "stdFlags"; "extraFlags"; "supportsMzn"; "supportsFzn";
   "needsSolns2Out"; "needsMznExecutable"; "needsStdlibDir"; "isGUIApplication"].

(** The text contains a dot. *)
Fixpoint has_dot (s : string) : bool :=
  match s with
  | EmptyString => false
  | String c s' => Ascii.eqb c "." || has_dot s'
  end.

(** The candidate names of a descriptor that conforms to the registry
    protocol (its identifier is text; its tags, when present, are a list
    of text): the identifier, its last dot-separated segment, the tags. *)
Definition candidate_names (s : descriptor) : option (list string) :=
  match dict_get s "id" with
  | Some (Obj _ (VStr id)) =>
      match dict_get s "tags" with
      | None => Some [id; last_segment id]
      | Some (Obj _ (VList tags)) =>
          (fun t => [id; last_segment id] ++ t) <$> mapM ExecDriver.as_str tags
      | Some _ => None
      end
  | _ => None
  end.
Definition conforming (s : descriptor) : Prop := is_Some (candidate_names s).


(** *** Materialisation and invocation *)

(** [tempfile] still has a candidate name that no file bears. *)
Definition has_free_name (prefix suffix : string) (w : world) : Prop :=
  ∃ n, (tmp_seq w ≤ n < tmp_seq w + TMP_MAX)%nat
       ∧ files w !! tmp_name prefix suffix n = None.

(** The exception of a gate of [solve], and what decides a gate: an option
    passes when it is not requested or its flag is in the standard flags,
    and is rejected when it is requested and its flag is not there. *)
Definition unsupported (flag : string) : exn :=
  NotImplementedError ("Solver does not support the " +:+ flag +:+ " flag").
Definition passes (requested : bool) (flag : string) (stdFlags : pyval) : Prop :=
  requested = false ∨ str_in flag stdFlags = Return true.
Definition rejects (requested : bool) (flag : string) (stdFlags : pyval) : Prop :=
  requested = true ∧ str_in flag stdFlags = Return false.


(** The tokens an option of [solve] adds to the command. *)
Definition option_tokens (requested : bool) (tokens : list pyval) : list pyval :=
  if requested then tokens else [].

(** The whole command of [solve] in closed form: the fixed arguments, the
    tokens of the requested options in the order [-p], [-r], [-f], and the
    files. *)
Definition expected_cmd (driver solver : pyobj) (files_ : list pyval)
    (processes random_seed free_search : pyobj) : list pyval :=
  [val driver; VStr "--solver"; val solver;
   VStr "--output-mode"; VStr "json"; VStr "--output-time"]
  ++ option_tokens (negb (is_None processes)) [VStr "-p"; val processes]
  ++ option_tokens (negb (is_None random_seed)) [VStr "-r"; val random_seed]
  ++ option_tokens (truthy (val free_search)) [VStr "-f"]
  ++ files_.

(** What [solve] makes of its command: the decoded result of the completed
    process, or the exception of a command that could not be started. *)
Definition solve_outcome (o : outside) (cmd : list pyval) : outcome Result :=
  (output <- launch o cmd ;; Return (from_process output))%outcome.

(** A world whose fresh addresses lie above those of the interpreter's
    constants [None], [False], [True] and [""]. *)
Definition fresh_above_constants (w : world) : Prop :=
  (addr empty_str < next_addr w)%nat.

(** The outcome of [ExecDriver.load_solver] as the module-level
    [load_solver] passes it on. *)
Definition as_loaded (r : outcome ExecDriver.inst * world) : outcome loaded * world :=
  match r with
  | (Return d, w') => (Return (LoadedExec d), w')
  | (Raise e, w') => (Raise e, w')
  | (Unmodelled, w') => (Unmodelled, w')
  end.

(** ** Sample data *)

(** A registry of two solvers; the first descriptor has none of the
    optional keys. *)
Definition gecode : descriptor :=
  [("id", Obj 20 (VStr "org.gecode.gecode"));
   ("name", Obj 21 (VStr "Gecode"));
   ("version", Obj 22 (VStr "6.1.0"));
   ("executable", Obj 23 (VStr "fzn-gecode"))].

Definition chuffed : descriptor :=
  [("id", Obj 30 (VStr "org.chuffed.chuffed"));
   ("name", Obj 31 (VStr "Chuffed"));
   ("version", Obj 32 (VStr "0.10.3"));
   ("executable", Obj 33 (VStr "fzn-chuffed"));
   ("tags", Obj 34 (VList [VStr "cp"; VStr "lcg"; VStr "int"]));
   ("stdFlags", Obj 35 (VList [VStr "-a"; VStr "-f"]))].

(** A host with the executable and without the library. *)
Definition sample_outside : outside :=
  Outside (fun _ => Return "MiniZinc to FlatZinc converter, version 2.2.3")
          (fun _ => Return [gecode; chuffed])
          (fun _ => Return (Completed 0 "" ""))
          (fun _ _ => None)
          (fun _ _ => Some "/usr/bin/minizinc").

Definition sample_world : world := World 100 None_ ∅ 0 ∅ [] sample_outside.

(** A host with neither the library nor the executable. *)
Definition bare_world : world :=
  World 100 None_ ∅ 0 ∅ []
    (Outside (fun _ => Raise FileNotFoundError) (fun _ => Raise FileNotFoundError)
             (fun _ => Raise FileNotFoundError) (fun _ _ => None) (fun _ _ => None)).

(** A host with the library. *)
Definition library_world : world :=
  World 100 None_ ∅ 0 ∅ []
    (Outside (fun _ => Raise FileNotFoundError) (fun _ => Raise FileNotFoundError)
             (fun _ => Raise FileNotFoundError) (fun _ _ => Some 7%nat) (fun _ _ => None)).

Definition minizinc_path : pyobj := Obj 50 (VPath "/usr/bin/minizinc").

(** [d = ExecDriver("Gecode", "6.1.0", "fzn-gecode", minizinc)] *)
Definition constructed : ExecDriver.inst * world :=
  match ExecDriver.new (Obj 21 (VStr "Gecode")) (Obj 22 (VStr "6.1.0"))
          (Obj 23 (VStr "fzn-gecode")) minizinc_path sample_world with
  | (Return d, w) => (d, w)
  | (_, w) => (∅, w)
  end.

(** The text that [d.to_json()] gives. *)
Definition constructed_doc : json :=
  match ExecDriver.to_json constructed.1 with
  | Return doc => doc
  | _ => JNull
  end.

(** ... followed by [d.stdFlags = ["-p", "-r", "-f"]]. *)
Definition flagged : ExecDriver.inst :=
  ExecDriver.__setattr__ "stdFlags"
    (Obj 60 (VList [VStr "-p"; VStr "-r"; VStr "-f"])) constructed.1.

(** ... and then by [d.id = "org.gecode.gecode"]. *)
Definition registered : ExecDriver.inst :=
  ExecDriver.__setattr__ "id" (Obj 70 (VStr "org.gecode.gecode")) flagged.

(** [ExecDriver.load_solver("gecode", minizinc)] *)
Definition loaded_gecode : ExecDriver.inst * world :=
  match ExecDriver.load_solver "gecode" minizinc_path sample_world with
  | (Return d, w) => (d, w)
  | (_, w) => (∅, w)
  end.

(** A host whose tool answers [--version] with [text]. *)
Definition host (text : string) : world :=
  World 100 None_ ∅ 0 ∅ []
    (Outside (fun _ => Return text) (fun _ => Return [gecode; chuffed])
             (fun _ => Return (Completed 0 "" "")) (fun _ _ => None)
             (fun _ _ => Some "/usr/bin/minizinc")).

(** A descriptor without a version, and a host whose registry holds it
    after Gecode. *)
Definition unversioned : descriptor :=
  [("id", Obj 40 (VStr "org.example.solver"));
   ("name", Obj 41 (VStr "Example"));
   ("executable", Obj 43 (VStr "fzn-example"))].
Definition unversioned_world : world :=
  World 100 None_ ∅ 0 ∅ []
    (Outside (fun _ => Return "MiniZinc to FlatZinc converter, version 2.2.3")
             (fun _ => Return [gecode; unversioned])
             (fun _ => Return (Completed 0 "" "")) (fun _ _ => None)
             (fun _ _ => Some "/usr/bin/minizinc")).

(** [d.name = 5] on the constructed record: a name that is no text. *)
Definition misnamed : ExecDriver.inst :=
  ExecDriver.__setattr__ "name" (Obj 80 (VInt 5)) constructed.1.

(** [d.tags = ["cp"]] on the registered record. *)
Definition retagged : ExecDriver.inst :=
  ExecDriver.__setattr__ "tags" (Obj 81 (VList [VStr "cp"])) registered.

(** * Properties *)

(** ** Attribute assignment and identity *)

Section Setattr.
Import ExecDriver.
Implicit Types (self : inst) (key : string) (value : pyobj).

Lemma id_not_intercepted : "id" ∉ intercepted.
Proof. apply (bool_decide_unpack _). by vm_compute. Qed.

Lemma name_not_intercepted : "name" ∉ intercepted.
Proof. apply (bool_decide_unpack _). by vm_compute. Qed.

Lemma driver_not_intercepted : "driver" ∉ intercepted.
Proof. apply (bool_decide_unpack _). by vm_compute. Qed.

Lemma invalidates_not_intercepted self key value :
  key ∉ intercepted -> invalidates key value self = false.
Proof.
  intros H. unfold invalidates. by rewrite bool_decide_eq_false_2.
Qed.

Lemma invalidates_intercepted self key value :
  key ∈ intercepted ->
  invalidates key value self
  = negb (py_is (getattr_default self key None_) value).
Proof.
  intros H. unfold invalidates. by rewrite bool_decide_eq_true_2.
Qed.

(** The re-entrant call [self.id = None] goes no deeper: two levels of
    the method are all an assignment ever needs. *)
Lemma setattr_fuel_spec fuel self key value :
  setattr_fuel (2 + fuel) key value self = Some (__setattr__ key value self).
Proof.
  unfold __setattr__.
  change (setattr_fuel (2 + fuel) key value self)
    with (match (if invalidates key value self
                 then match (if invalidates "id" None_ self
                             then setattr_fuel fuel "id" None_ self
                             else Some self) with
                      | Some self1 => Some (object_setattr "id" None_ self1)
                      | None => None
                      end
                 else Some self) with
          | Some self1 => Some (object_setattr key value self1)
          | None => None
          end).
  rewrite (invalidates_not_intercepted self "id" None_ id_not_intercepted).
  by destruct (invalidates key value self).
Qed.

Lemma setattr_lookup_key self key value :
  __setattr__ key value self !! key = Some value.
Proof. unfold __setattr__, object_setattr. apply lookup_insert_eq. Qed.

Lemma setattr_lookup_other self key value k :
  k ≠ key -> k ≠ "id" -> __setattr__ key value self !! k = self !! k.
Proof.
  intros Hk Hid. unfold __setattr__, object_setattr.
  rewrite lookup_insert_ne by done.
  destruct (invalidates key value self); [|done].
  by rewrite lookup_insert_ne.
Qed.

Lemma intercepted_not_id key : key ∈ intercepted -> key ≠ "id".
Proof. intros H ->. by apply id_not_intercepted. Qed.
End Setattr.

(** C1, as the code has it.  For an intercepted capability field, the
    comparison that decides about the identity is the one of object
    references ([is not]): assigning an object other than the one the field
    currently refers to stores [None] in [id] first and the new value
    afterwards; assigning the very object the field refers to leaves [id]
    as it was.  Since one object has one value, an assignment that changes
    the value of the field always clears the identity. *)
Theorem setattr_capability_identity
    (self : ExecDriver.inst) (key : string) (value : pyobj) :
  key ∈ ExecDriver.intercepted ->
  let current := ExecDriver.getattr_default self key None_ in
  (addr value ≠ addr current ->
     ExecDriver.__setattr__ key value self
     = <[key := value]> (<["id" := None_]> self)
     /\ ExecDriver.__setattr__ key value self !! "id" = Some None_)
  /\ (addr value = addr current ->
     ExecDriver.__setattr__ key value self = <[key := value]> self
     /\ ExecDriver.__setattr__ key value self !! "id" = self !! "id")
  /\ ((addr value = addr current -> val value = val current) ->
     val value ≠ val current ->
     ExecDriver.__setattr__ key value self !! "id" = Some None_).
Proof.
  intros Hkey current.
  pose proof (intercepted_not_id key Hkey) as Hne.
  assert (Hclear : addr value ≠ addr current ->
            ExecDriver.__setattr__ key value self
            = <[key := value]> (<["id" := None_]> self)
            /\ ExecDriver.__setattr__ key value self !! "id" = Some None_).
  { intros Hdiff. unfold ExecDriver.__setattr__, ExecDriver.object_setattr.
    rewrite invalidates_intercepted by done. fold current.
    unfold py_is. destruct (Nat.eqb_spec (addr current) (addr value)) as [E|E];
      [congruence|]. simpl. split; [done|].
    rewrite lookup_insert_ne by done. apply lookup_insert_eq. }
  split; [exact Hclear|]. split.
  - intros Hsame. unfold ExecDriver.__setattr__, ExecDriver.object_setattr.
    rewrite invalidates_intercepted by done. fold current.
    unfold py_is. rewrite Hsame, Nat.eqb_refl. simpl. split; [done|].
    by rewrite lookup_insert_ne.
  - intros Hheap Hval. apply Hclear. intros E. by apply Hval, Hheap.
Qed.

Lemma setattr_capability_identity_witness :
  let self : ExecDriver.inst :=
    {[ "id" := Obj 11 (VStr "org.gecode.gecode");
       "supportsMzn" := False_ ]} in
  ExecDriver.__setattr__ "supportsMzn" True_ self !! "id" = Some None_
  /\ ExecDriver.__setattr__ "supportsMzn" False_ self !! "id"
     = Some (Obj 11 (VStr "org.gecode.gecode")).
Proof.
  intros self.
  assert (Hkey : "supportsMzn" ∈ ExecDriver.intercepted)
    by (apply (bool_decide_unpack _); by vm_compute).
  split.
  - refine (proj2 (proj1 (setattr_capability_identity self "supportsMzn" True_ Hkey) _)).
    vm_compute. lia.
  - refine (eq_trans
      (proj2 (proj1 (proj2 (setattr_capability_identity self "supportsMzn" False_ Hkey)) _)) _).
    + reflexivity.
    + reflexivity.
Defined.

(** C1, the counterexample.  The field [tags] refers to an empty list; a
    second empty list, equal to it by value, is assigned; the identity is
    cleared. *)
Lemma setattr_equal_value_clears_identity :
  let self : ExecDriver.inst :=
    {[ "id" := Obj 11 (VStr "org.gecode.gecode");
       "tags" := Obj 10 (VList []) ]} in
  let value := Obj 12 (VList []) in
  "tags" ∈ ExecDriver.intercepted
  /\ val value = val (ExecDriver.getattr_default self "tags" None_)
  /\ self !! "id" = Some (Obj 11 (VStr "org.gecode.gecode"))
  /\ ExecDriver.__setattr__ "tags" value self !! "id" = Some None_
  /\ (ExecDriver.__setattr__ "tags" value self !! "id") ≠ (self !! "id").
Proof.
  intros self value.
  split; [apply (bool_decide_unpack _); by vm_compute|].
  split; [reflexivity|]. split; [reflexivity|]. split; [reflexivity|].
  vm_compute. discriminate.
Qed.

(** C10, as the code has it.  An assignment to an attribute outside the
    intercepted list is a plain store: it changes that attribute and no
    other.  So for every such attribute except [id] itself (in particular
    [name] and [driver]) the identity is what it was, and a renamed
    record keeps its identity; an assignment to [id] stores the assigned
    value as the identity, with no clearing step. *)
Theorem setattr_other_preserves_identity
    (self : ExecDriver.inst) (key : string) (value : pyobj) :
  key ∉ ExecDriver.intercepted ->
  ExecDriver.__setattr__ key value self = <[key := value]> self
  /\ (key ≠ "id" -> ExecDriver.__setattr__ key value self !! "id" = self !! "id")
  /\ (key = "id" -> ExecDriver.__setattr__ key value self !! "id" = Some value).
Proof.
  intros Hkey.
  assert (E : ExecDriver.__setattr__ key value self = <[key := value]> self).
  { unfold ExecDriver.__setattr__, ExecDriver.object_setattr.
    by rewrite invalidates_not_intercepted. }
  rewrite E. split; [done|]. split.
  - intros Hne. by rewrite lookup_insert_ne.
  - intros ->. apply lookup_insert_eq.
Qed.

Lemma setattr_other_preserves_identity_witness :
  let self : ExecDriver.inst :=
    {[ "id" := Obj 11 (VStr "org.gecode.gecode");
       "name" := Obj 12 (VStr "Gecode") ]} in
  ExecDriver.__setattr__ "name" (Obj 13 (VStr "Chuffed")) self !! "id"
  = Some (Obj 11 (VStr "org.gecode.gecode")).
Proof.
  intros self.
  refine (eq_trans
    (proj1 (proj2 (setattr_other_preserves_identity
                     self "name" (Obj 13 (VStr "Chuffed")) _)) _) _).
  - apply (bool_decide_unpack _). by vm_compute.
  - discriminate.
  - reflexivity.
Defined.

(** C10, the counterexample.  [id] is outside the intercepted list, and
    assigning a new value to it changes the identity. *)
Lemma setattr_id_changes_identity :
  let self : ExecDriver.inst :=
    {[ "id" := Obj 11 (VStr "org.gecode.gecode");
       "name" := Obj 12 (VStr "Gecode") ]} in
  let value := Obj 13 (VStr "org.chuffed.chuffed") in
  ("id" ∉ ExecDriver.intercepted)
  /\ self !! "id" = Some (Obj 11 (VStr "org.gecode.gecode"))
  /\ ExecDriver.__setattr__ "id" value self !! "id" = Some value
  /\ (ExecDriver.__setattr__ "id" value self !! "id") ≠ (self !! "id").
Proof.
  intros self value.
  split; [apply (bool_decide_unpack _); by vm_compute|].
  split; [reflexivity|]. split; [reflexivity|].
  vm_compute. discriminate.
Qed.

(** ** The version pattern *)

Lemma app_nil_s (b : string) : "" +:+ b = b.
Proof. reflexivity. Qed.
Lemma app_cons_s c (a b : string) : String c a +:+ b = String c (a +:+ b).
Proof. reflexivity. Qed.
Ltac sapp := rewrite ?app_cons_s, ?app_nil_s in *.

Lemma app_nil_r_s (a : string) : a +:+ "" = a.
Proof. induction a; sapp; congruence. Qed.

Lemma app_assoc_s (a b c : string) : (a +:+ b) +:+ c = a +:+ (b +:+ c).
Proof. induction a; sapp; congruence. Qed.

Lemma sdrop_app pre suf : sdrop (String.length pre) (pre +:+ suf) = suf.
Proof. induction pre; sapp; simpl; auto. Qed.

Lemma sdrop_split n s :
  (n ≤ String.length s)%nat →
  ∃ pre, s = pre +:+ sdrop n s ∧ String.length pre = n.
Proof.
  revert s; induction n as [|n IH]; intros s Hn.
  - by exists "".
  - destruct s as [|c s]; simpl in *; [lia|].
    destruct (IH s) as (pre & E & L); [lia|].
    exists (String c pre). sapp. simpl. split; congruence.
Qed.

Lemma span_digits_spec s d r :
  span_digits s = (d, r) → s = d +:+ r ∧ all_digits d = true ∧ leading_digit r = false.
Proof.
  revert d r; induction s as [|c s IH]; intros d r; simpl.
  - intros [= <- <-]. done.
  - destruct (is_digit c) eqn:Hc.
    + destruct (span_digits s) as [d' r']. intros [= <- <-].
      destruct (IH d' r' eq_refl) as (-> & Hd & Hr).
      split; [done|]. split; [|done]. unfold all_digits. simpl. by rewrite Hc.
    + intros [= <- <-]. simpl. by rewrite Hc.
Qed.

Lemma span_digits_app d r :
  all_digits d = true →
  span_digits (d +:+ r) = (d +:+ (span_digits r).1, (span_digits r).2).
Proof.
  induction d as [|c d IH]; sapp; simpl; intros H.
  - by destruct (span_digits r).
  - unfold all_digits in H. simpl in H. apply andb_true_iff in H as [Hc Hd].
    rewrite Hc, (IH Hd). by sapp.
Qed.

Lemma span_digits_stop r : leading_digit r = false → span_digits r = ("", r).
Proof. destruct r as [|c r]; simpl; [done|]. by intros ->. Qed.

Lemma match_digits_sound s d r :
  match_digits s = Some (d, r) →
  s = d +:+ r ∧ digits d ∧ leading_digit r = false.
Proof.
  unfold match_digits. destruct (span_digits s) as [d' r'] eqn:E.
  apply span_digits_spec in E as (-> & Hd & Hr).
  destruct d'; [done|]. intros [= <- <-]. repeat split; done.
Qed.

Lemma match_digits_app d r :
  digits d →
  match_digits (d +:+ r) = Some (d +:+ (span_digits r).1, (span_digits r).2).
Proof.
  intros [Hne Hd]. unfold match_digits. rewrite span_digits_app by done.
  destruct d; [done|]. done.
Qed.

Lemma match_digits_dot d r :
  digits d → match_digits (d +:+ String "." r) = Some (d, String "." r).
Proof.
  intros H. rewrite match_digits_app by done. simpl.
  by rewrite app_nil_r_s.
Qed.

Lemma match_dot_sound s r : match_dot s = Some r → s = String "." r.
Proof.
  destruct s as [|c s]; [done|]. unfold match_dot.
  destruct c as [[] [] [] [] [] [] [] []]; try done. by intros [= ->].
Qed.

Lemma match_triple_sound s g :
  match_triple s = Some g →
  ∃ rest, occurs "" s "" g rest ∧ leading_digit rest = false.
Proof.
  unfold match_triple.
  destruct (match_digits s) as [[d1 r1]|] eqn:E1; [|done].
  destruct (match_dot r1) as [r2|] eqn:E2; [|done].
  destruct (match_digits r2) as [[d2 r3]|] eqn:E3; [|done].
  destruct (match_dot r3) as [r4|] eqn:E4; [|done].
  destruct (match_digits r4) as [[d3 r5]|] eqn:E5; [|done].
  intros [= <-].
  apply match_digits_sound in E1 as (-> & H1 & _).
  apply match_dot_sound in E2 as ->.
  apply match_digits_sound in E3 as (-> & H2 & _).
  apply match_dot_sound in E4 as ->.
  apply match_digits_sound in E5 as (-> & H3 & Hr).
  exists r5. split; [|done]. unfold occurs. simpl. sapp. done.
Qed.

Lemma match_triple_complete s g rest :
  occurs "" s "" g rest →
  match_triple s
  = Some (g.1.1, g.1.2, g.2 +:+ (span_digits rest).1).
Proof.
  destruct g as [[a b] c]. unfold occurs. simpl. sapp.
  intros (-> & Ha & Hb & Hc). unfold match_triple.
  rewrite (match_digits_dot a) by done. simpl.
  rewrite (match_digits_dot b) by done. simpl.
  by rewrite (match_digits_app c).
Qed.

Lemma strip_prefix_sound lit s r : strip_prefix lit s = Some r → s = lit +:+ r.
Proof.
  revert s; induction lit as [|a lit IH]; intros s; simpl.
  - by intros [= ->].
  - destruct s as [|b s]; [done|].
    destruct (Ascii.eqb_spec a b) as [->|]; [|done].
    intros H. sapp. by rewrite (IH _ H).
Qed.

Lemma strip_prefix_app lit r : strip_prefix lit (lit +:+ r) = Some r.
Proof.
  induction lit as [|a lit IH]; sapp; simpl; [done|].
  by rewrite Ascii.eqb_refl.
Qed.

Lemma match_lit_triple_sound lit s g :
  match_lit_triple lit s = Some g →
  ∃ rest, occurs lit s "" g rest ∧ leading_digit rest = false.
Proof.
  unfold match_lit_triple.
  destruct (strip_prefix lit s) as [r|] eqn:E; [|done].
  apply strip_prefix_sound in E as ->. intros H.
  apply match_triple_sound in H as (rest & (E & Hd) & Hr).
  exists rest. split; [|done]. split; [|done]. sapp. by rewrite E at 1.
Qed.

Lemma match_lit_triple_complete lit s g rest :
  occurs lit s "" g rest →
  match_lit_triple lit s
  = Some (g.1.1, g.1.2, g.2 +:+ (span_digits rest).1).
Proof.
  intros (E & Hd). sapp. unfold match_lit_triple.
  rewrite E, strip_prefix_app. apply match_triple_complete.
  split; [|done]. by sapp.
Qed.

Lemma match_lit_triple_greedy lit s g rest :
  occurs lit s "" g rest → leading_digit rest = false →
  match_lit_triple lit s = Some g.
Proof.
  intros H Hr. rewrite (match_lit_triple_complete _ _ _ _ H).
  rewrite span_digits_stop by done. simpl. rewrite app_nil_r_s.
  by destruct g as [[a b] c].
Qed.

Lemma length_app_s (a b : string) :
  String.length (a +:+ b) = (String.length a + String.length b)%nat.
Proof. induction a; sapp; simpl; congruence. Qed.

Lemma re_search_Some {G} (here : string → option G) s g :
  re_search here s = Some g ↔
  ∃ n, (n ≤ String.length s)%nat ∧ here (sdrop n s) = Some g
       ∧ ∀ m, (m < n)%nat → here (sdrop m s) = None.
Proof.
  induction s as [|c s IH]; simpl.
  - destruct (here "") eqn:E.
    + split.
      * intros [= ->]. exists 0%nat. simpl. split; [lia|]. split; [done|]. lia.
      * intros (n & Hn & H & _). destruct n; simpl in *; [congruence | lia].
    + split; [done|]. intros (n & Hn & H & _).
      destruct n; simpl in *; [congruence | lia].
  - destruct (here (String c s)) eqn:E.
    + split.
      * intros [= ->]. exists 0%nat. simpl. split; [lia|]. split; [done|]. lia.
      * intros (n & Hn & H & Hmin). destruct n; simpl in *; [congruence|].
        specialize (Hmin 0%nat ltac:(lia)). simpl in Hmin. congruence.
    + rewrite IH. split.
      * intros (n & Hn & H & Hmin). exists (S n). simpl.
        split; [lia|]. split; [done|].
        intros [|m] Hm; simpl; [done|]. apply Hmin. lia.
      * intros (n & Hn & H & Hmin). destruct n; simpl in *; [congruence|].
        exists n. split; [lia|]. split; [done|].
        intros m Hm. apply (Hmin (S m)). lia.
Qed.

Lemma re_search_None {G} (here : string → option G) s :
  re_search here s = None ↔ ∀ n, here (sdrop n s) = None.
Proof.
  induction s as [|c s IH]; simpl.
  - destruct (here "") eqn:E.
    + split; [done|]. intros H. specialize (H 0%nat). simpl in H. congruence.
    + split; [|done]. intros _ [|n]; done.
  - destruct (here (String c s)) eqn:E.
    + split; [done|]. intros H. specialize (H 0%nat). simpl in H. congruence.
    + rewrite IH. split.
      * intros H [|n]; simpl; [done|]. apply H.
      * intros H n. apply (H (S n)).
Qed.

Lemma occurs_at_drop lit s pre g rest :
  occurs lit s pre g rest → occurs lit (sdrop (String.length pre) s) "" g rest.
Proof.
  intros (E & Hd). split; [|done]. sapp. rewrite E at 1. by rewrite sdrop_app.
Qed.

Lemma occurs_length lit s pre g rest :
  occurs lit s pre g rest → (String.length pre ≤ String.length s)%nat.
Proof. intros (-> & _). rewrite length_app_s. lia. Qed.

Lemma sdrop_beyond n s : (String.length s ≤ n)%nat → sdrop n s = "".
Proof.
  revert s; induction n as [|n IH]; intros [|c s]; simpl; try done; try lia.
  intros H. apply IH. lia.
Qed.

Lemma occurs_from_drop lit s n g rest :
  (n ≤ String.length s)%nat →
  occurs lit (sdrop n s) "" g rest →
  ∃ pre, String.length pre = n ∧ occurs lit s pre g rest.
Proof.
  intros Hn (E & Hd). destruct (sdrop_split n s Hn) as (pre & Es & L).
  exists pre. split; [done|]. split; [|done]. sapp. rewrite Es at 1. by rewrite E at 1.
Qed.

(** The search finds the first occurrence of the pattern, and nothing
    else. *)
Theorem search_first_occurrence lit s g :
  re_search (match_lit_triple lit) s = Some g ↔ first_occurrence lit s g.
Proof.
  rewrite re_search_Some. split.
  - intros (n & Hn & H & Hmin).
    apply match_lit_triple_sound in H as (rest & Hocc & Hr).
    destruct (occurs_from_drop _ _ _ _ _ Hn Hocc) as (pre & L & Hpre).
    exists pre, rest. split; [done|]. split; [done|].
    intros pre' g' rest' H'. rewrite L.
    destruct (Nat.le_gt_cases n (String.length pre')) as [|Hlt]; [done|].
    apply occurs_at_drop in H'.
    specialize (Hmin _ Hlt).
    by rewrite (match_lit_triple_complete _ _ _ _ H') in Hmin.
  - intros (pre & rest & Hocc & Hr & Hmin).
    exists (String.length pre). split; [by eapply occurs_length|]. split.
    + apply (match_lit_triple_greedy _ _ _ rest); [|done]. by apply occurs_at_drop.
    + intros m Hm.
      destruct (match_lit_triple lit (sdrop m s)) as [g'|] eqn:E; [|done].
      apply match_lit_triple_sound in E as (rest' & H' & _).
      apply occurs_from_drop in H' as (pre' & L & H');
        [|pose proof (occurs_length _ _ _ _ _ Hocc); lia].
      apply Hmin in H'. lia.
Qed.

(** The search fails exactly when the pattern occurs nowhere. *)
Theorem search_no_occurrence lit s :
  re_search (match_lit_triple lit) s = None ↔ no_occurrence lit s.
Proof.
  rewrite re_search_None. split.
  - intros H pre g rest Hocc. apply occurs_at_drop in Hocc.
    specialize (H (String.length pre)).
    by rewrite (match_lit_triple_complete _ _ _ _ Hocc) in H.
  - intros H n. destruct (match_lit_triple lit (sdrop n s)) as [g|] eqn:E; [|done].
    apply match_lit_triple_sound in E as (rest & Hocc & _).
    destruct (Nat.le_gt_cases n (String.length s)) as [Hn|Hn].
    + apply occurs_from_drop in Hocc as (pre & _ & Hocc); [|done]. by apply H in Hocc.
    + rewrite sdrop_beyond in Hocc by lia.
      destruct Hocc as (E & (Hne & _) & _). exfalso.
      apply (f_equal String.length) in E. rewrite !length_app_s in E. simpl in E.
      destruct g as [[a b] c]. simpl in *. destruct a; [done|]. simpl in E. lia.
Qed.

(** [int] reads a run of digits as a decimal numeral: one more digit on
    the right multiplies by ten and adds the digit. *)
Lemma int_of_digits_snoc (s : string) (c : ascii) :
  int_of_digits (s +:+ String c "") = (10 * int_of_digits s + digit_value c)%Z.
Proof.
  unfold int_of_digits. generalize 0%Z as acc.
  induction s as [|x s IH]; intros acc; sapp; simpl; [done|]. apply IH.
Qed.

Lemma search_triple_first_occurrence s g :
  search_triple s = Some g ↔ first_occurrence "" s g.
Proof. exact (search_first_occurrence "" s g). Qed.

Lemma search_triple_no_occurrence s :
  search_triple s = None ↔ no_occurrence "" s.
Proof. exact (search_no_occurrence "" s). Qed.

Lemma search_version_triple_first_occurrence s g :
  search_version_triple s = Some g ↔ first_occurrence "version " s g.
Proof. exact (search_first_occurrence "version " s g). Qed.

Lemma search_version_triple_no_occurrence s :
  search_version_triple s = None ↔ no_occurrence "version " s.
Proof. exact (search_no_occurrence "version " s). Qed.

(** What [minizinc_version] does on a driver that answers [text]. *)
Lemma minizinc_version_run (self : ExecDriver.inst) (w : world) driver text :
  self !! "driver" = Some driver ->
  tool_version (ext w) (val driver) = Return text ->
  ExecDriver.minizinc_version (self, w)
  = (groups_to_ints (search_version_triple text),
     (self, set_run_calls (run_calls w ++ [[val driver; VStr "--version"]]) w)).
Proof.
  intros Hd Ht.
  unfold ExecDriver.minizinc_version, mbind, ExecDriver.read, ExecDriver.getattr,
    log_call, mlift.
  rewrite Hd. simpl. by rewrite Ht.
Qed.

(** C7, as the code has it.  The version probe [minizinc_version] looks for
    the first occurrence of the literal text ["version "] followed by
    [<major>.<minor>.<patch>] in the output of [driver --version], and
    returns the three decimal integers in order; when that pattern occurs
    nowhere it fails, with the [AttributeError] of a missing match.  One of
    the two cases always applies.  The version string of a registry entry
    is read by [__init__] in the same way with the bare pattern
    [<major>.<minor>.<patch>]. *)
Theorem version_probe_first_occurrence
    (self : ExecDriver.inst) (w : world) (driver : pyobj) (text : string) :
  self !! "driver" = Some driver ->
  tool_version (ext w) (val driver) = Return text ->
  let probe := (ExecDriver.minizinc_version (self, w)).1 in
  let parse (version : string) :=
    (m <- ExecDriver.search_version_arg (VStr version) ;; groups_to_ints m)%outcome in
  (forall a b c, first_occurrence "version " text (a, b, c) ->
     probe = Return [int_of_digits a; int_of_digits b; int_of_digits c])
  /\ (no_occurrence "version " text -> probe = Raise AttributeError)
  /\ ((exists g, first_occurrence "version " text g) \/ no_occurrence "version " text)
  /\ (forall version a b c, first_occurrence "" version (a, b, c) ->
     parse version = Return [int_of_digits a; int_of_digits b; int_of_digits c])
  /\ (forall version, no_occurrence "" version -> parse version = Raise AttributeError)
  /\ (forall version,
        (exists g, first_occurrence "" version g) \/ no_occurrence "" version).
Proof.
  intros Hd Ht probe parse. subst probe parse.
  rewrite (minizinc_version_run _ _ _ _ Hd Ht). simpl.
  repeat split.
  - intros a b c H. apply search_version_triple_first_occurrence in H. by rewrite H.
  - intros H. apply search_version_triple_no_occurrence in H. by rewrite H.
  - destruct (search_version_triple text) as [g|] eqn:E.
    + left. exists g. by apply search_version_triple_first_occurrence.
    + right. by apply search_version_triple_no_occurrence.
  - intros version a b c H. apply search_triple_first_occurrence in H. by rewrite H.
  - intros version H. apply search_triple_no_occurrence in H. by rewrite H.
  - intros version. destruct (search_triple version) as [g|] eqn:E.
    + left. exists g. by apply search_triple_first_occurrence.
    + right. by apply search_triple_no_occurrence.
Qed.

(** The text of the example: ["... version 2.5.3 ..."] gives [(2, 5, 3)]. *)
Lemma version_probe_first_occurrence_witness :
  let text := "MiniZinc to FlatZinc converter, version 2.5.3, build 1.0.2" in
  let self : ExecDriver.inst := {[ "driver" := Obj 50 (VPath "/usr/bin/minizinc") ]} in
  let w := World 100 None_ ∅ 0 ∅ []
             (Outside (fun _ => Return text) (fun _ => Return [])
                      (fun _ => Return (Completed 0 "" "")) (fun _ _ => None) (fun _ _ => None)) in
  (ExecDriver.minizinc_version (self, w)).1 = Return [2; 5; 3]%Z.
Proof.
  intros text self w.
  refine (proj1 (version_probe_first_occurrence self w
                   (Obj 50 (VPath "/usr/bin/minizinc")) text _ _) "2" "5" "3" _).
  - reflexivity.
  - reflexivity.
  - apply search_version_triple_first_occurrence. by vm_compute.
Defined.

(** C7, the counterexample.  In the text ["1.0.0 version 2.5.3"] the first
    occurrence of [<major>.<minor>.<patch>] is [1.0.0], and the probe
    returns [(2, 5, 3)]; in the text ["MiniZinc 2.5.3"] the pattern occurs,
    and the probe fails. *)
Lemma version_probe_needs_literal_prefix :
  let self : ExecDriver.inst := {[ "driver" := Obj 50 (VPath "/usr/bin/minizinc") ]} in
  let w text := World 100 None_ ∅ 0 ∅ []
             (Outside (fun _ => Return text) (fun _ => Return [])
                      (fun _ => Return (Completed 0 "" "")) (fun _ _ => None) (fun _ _ => None)) in
  (first_occurrence "" "1.0.0 version 2.5.3" ("1", "0", "0")
   /\ (ExecDriver.minizinc_version (self, w "1.0.0 version 2.5.3")).1
      = Return [2; 5; 3]%Z
   /\ (ExecDriver.minizinc_version (self, w "1.0.0 version 2.5.3")).1
      <> Return [int_of_digits "1"; int_of_digits "0"; int_of_digits "0"])
  /\ (first_occurrence "" "MiniZinc 2.5.3" ("2", "5", "3")
   /\ (ExecDriver.minizinc_version (self, w "MiniZinc 2.5.3")).1
      = Raise AttributeError).
Proof.
  intros self w. repeat split.
  - apply search_triple_first_occurrence. by vm_compute.
  - by vm_compute.
  - apply search_triple_first_occurrence. by vm_compute.
Qed.

(** ** Serialisation *)

Lemma sort_members_info {A} (v1 v2 v3 v4 v5 v6 v7 v8 v9 v10 v11 v12 : A) :
  sort_members
    [("name", v1); ("version", v2); ("mznlib", v3); ("tags", v4);
     ("executable", v5); ("supportsMzn", v6); ("supportsFzn", v7);
     ("needsSolns2Out", v8); ("needsMznExecutable", v9);
     ("needsStdlibDir", v10); ("isGUIApplication", v11); ("id", v12)]
  = [("executable", v5); ("id", v12); ("isGUIApplication", v11);
     ("mznlib", v3); ("name", v1); ("needsMznExecutable", v9);
     ("needsSolns2Out", v8); ("needsStdlibDir", v10);
     ("supportsFzn", v7); ("supportsMzn", v6); ("tags", v4); ("version", v2)].
Proof. by vm_compute. Qed.

Lemma obind_Return {A B} (m : outcome A) (k : A → outcome B) b :
  obind m k = Return b → ∃ a, m = Return a ∧ k a = Return b.
Proof. destruct m; simpl; [eauto|done|done]. Qed.

Lemma getattr_Return self key o :
  ExecDriver.getattr self key = Return o → self !! key = Some o.
Proof. unfold ExecDriver.getattr. destruct (self !! key); [|done]. by intros [= ->]. Qed.

Ltac inv_bind H :=
  let a := fresh "x" in let E := fresh "E" in
  apply obind_Return in H as (a & E & H).


Lemma to_json_inv (self : ExecDriver.inst) doc :
  ExecDriver.to_json self = Return doc →
  ∃ name version mznlib tags executable supportsMzn supportsFzn needsSolns2Out
    needsMznExecutable needsStdlibDir isGUIApplication id parts strs id_entry
    j1 j3 j4 j5 j6 j7 j8 j9 j10 j11 j12,
    self !! "name" = Some name ∧ self !! "version" = Some version
    ∧ self !! "mznlib" = Some mznlib ∧ self !! "tags" = Some tags
    ∧ self !! "executable" = Some executable
    ∧ self !! "supportsMzn" = Some supportsMzn ∧ self !! "supportsFzn" = Some supportsFzn
    ∧ self !! "needsSolns2Out" = Some needsSolns2Out
    ∧ self !! "needsMznExecutable" = Some needsMznExecutable
    ∧ self !! "needsStdlibDir" = Some needsStdlibDir
    ∧ self !! "isGUIApplication" = Some isGUIApplication
    ∧ self !! "id" = Some id
    ∧ py_iter (val version) = Return parts ∧ omap py_str parts = Return strs
    ∧ (if is_None id
       then (n <- ExecDriver.name_lower (val name) ;;
             Return (VStr ("org.minizinc.python." +:+ n)))%outcome
       else Return (val id)) = Return id_entry
    ∧ json_dumps (val name) = Return j1 ∧ json_dumps (val mznlib) = Return j3
    ∧ json_dumps (val tags) = Return j4 ∧ json_dumps (val executable) = Return j5
    ∧ json_dumps (val supportsMzn) = Return j6 ∧ json_dumps (val supportsFzn) = Return j7
    ∧ json_dumps (val needsSolns2Out) = Return j8
    ∧ json_dumps (val needsMznExecutable) = Return j9
    ∧ json_dumps (val needsStdlibDir) = Return j10
    ∧ json_dumps (val isGUIApplication) = Return j11
    ∧ json_dumps id_entry = Return j12
    ∧ doc = JObj
        [("executable", j5); ("id", j12); ("isGUIApplication", j11);
         ("mznlib", j3); ("name", j1); ("needsMznExecutable", j9);
         ("needsSolns2Out", j8); ("needsStdlibDir", j10);
         ("supportsFzn", j7); ("supportsMzn", j6); ("tags", j4);
         ("version", JStr (String.concat "." strs))].
Proof.
  unfold ExecDriver.to_json. intros H.
  do 13 inv_bind H.
  repeat match goal with E : ExecDriver.getattr _ _ = Return _ |- _ => apply getattr_Return in E end.
  inv_bind H. inv_bind H.
  apply getattr_Return in E12.
  simpl app in H.
  simpl json_dumps in H.
  repeat match goal with
         | H : obind _ _ = Return _ |- _ => apply obind_Return in H as (? & ? & H)
         | H : Return _ = Return _ |- _ => injection H as H; subst
         end.
  rewrite sort_members_info.
  repeat eexists; eassumption.
Qed.

(** C8, what [to_json] produces.  Whenever it returns, the document is a
    JSON object whose keys are in sorted order and are exactly the twelve
    keys of [to_json_keys]: the name, the version, nine capability fields
    and [id].  The capability fields [stdFlags] and [extraFlags] are not
    among them.  The [id] member is the identity itself when the identity
    is not [None], and otherwise ["org.minizinc.python."] followed by the
    lowercased name. *)
Theorem to_json_document (self : ExecDriver.inst) (doc : json) :
  ExecDriver.to_json self = Return doc ->
  exists members,
    doc = JObj members
    /\ map fst members = to_json_keys
    /\ StronglySorted str_lt (map fst members)
    /\ dict_get members "stdFlags" = None
    /\ dict_get members "extraFlags" = None
    /\ Forall (fun k => exists o j,
                  self !! k = Some o /\ json_dumps (val o) = Return j
                  /\ dict_get members k = Some j) copied_fields
    /\ (exists v parts strs,
          self !! "version" = Some v /\ py_iter (val v) = Return parts
          /\ omap py_str parts = Return strs
          /\ dict_get members "version" = Some (JStr (String.concat "." strs)))
    /\ (exists id,
          self !! "id" = Some id
          /\ (is_None id = false ->
              exists j, json_dumps (val id) = Return j
                        /\ dict_get members "id" = Some j)
          /\ (is_None id = true ->
              exists name n,
                self !! "name" = Some name /\ val name = VStr n
                /\ dict_get members "id"
                   = Some (JStr ("org.minizinc.python." +:+ lower n)))).
Proof.
  intros H. apply to_json_inv in H
    as (name & version & mznlib & tags & executable & supportsMzn & supportsFzn
        & needsSolns2Out & needsMznExecutable & needsStdlibDir & isGUIApplication
        & id & parts & strs & id_entry & j1 & j3 & j4 & j5 & j6 & j7 & j8 & j9
        & j10 & j11 & j12 & Hname & Hversion & Hmznlib & Htags & Hexecutable
        & HsupportsMzn & HsupportsFzn & HneedsSolns2Out & HneedsMznExecutable
        & HneedsStdlibDir & HisGUIApplication & Hid & Hparts & Hstrs & Hentry
        & H1 & H3 & H4 & H5 & H6 & H7 & H8 & H9 & H10 & H11 & H12 & ->).
  eexists. split; [reflexivity|]. split; [reflexivity|]. split.
  { apply (bool_decide_unpack _). by vm_compute. }
  split; [reflexivity|]. split; [reflexivity|]. split.
  { unfold copied_fields. repeat (constructor; [by eauto|]). constructor. }
  split; [by eauto 10|].
  exists id. split; [done|]. split.
  - intros Hn. rewrite Hn in Hentry. injection Hentry as <-. by eauto.
  - intros Hn. rewrite Hn in Hentry. unfold ExecDriver.name_lower in Hentry.
    destruct (val name) eqn:Ev; try done. simpl in Hentry. injection Hentry as <-.
    simpl in H12. injection H12 as <-. by eauto 10.
Qed.

(** C8 at a record built by the constructor, with its standard flags set
    afterwards: the document has no [stdFlags] and no [extraFlags]
    member. *)
Lemma to_json_document_witness :
  flagged !! "stdFlags" = Some (Obj 60 (VList [VStr "-p"; VStr "-r"; VStr "-f"]))
  /\ ExecDriver.to_json flagged
     = Return (JObj [("executable", JStr "fzn-gecode");
                     ("id", JStr "org.minizinc.python.gecode");
                     ("isGUIApplication", JBool false);
                     ("mznlib", JStr "");
                     ("name", JStr "Gecode");
                     ("needsMznExecutable", JBool false);
                     ("needsSolns2Out", JBool false);
                     ("needsStdlibDir", JBool false);
                     ("supportsFzn", JBool true);
                     ("supportsMzn", JBool false);
                     ("tags", JArr []);
                     ("version", JStr "6.1.0")])
  /\ exists members doc,
       ExecDriver.to_json flagged = Return doc
       /\ doc = JObj members
       /\ map fst members = to_json_keys
       /\ dict_get members "stdFlags" = None
       /\ dict_get members "extraFlags" = None.
Proof.
  split; [reflexivity|]. split; [by vm_compute|].
  destruct (to_json_document flagged
              (JObj [("executable", JStr "fzn-gecode");
                     ("id", JStr "org.minizinc.python.gecode");
                     ("isGUIApplication", JBool false);
                     ("mznlib", JStr "");
                     ("name", JStr "Gecode");
                     ("needsMznExecutable", JBool false);
                     ("needsSolns2Out", JBool false);
                     ("needsStdlibDir", JBool false);
                     ("supportsFzn", JBool true);
                     ("supportsMzn", JBool false);
                     ("tags", JArr []);
                     ("version", JStr "6.1.0")]))
    as (members & E & K & _ & S1 & S2 & _).
  - by vm_compute.
  - exists members. eexists. split; [by vm_compute|]. done.
Defined.

(** ** Construction and discovery *)

Lemma mbind_Return {St A B} (m : M St A) (k : A → M St B) s b s' :
  mbind m k s = (Return b, s') →
  ∃ a s1, m s = (Return a, s1) ∧ k a s1 = (Return b, s').
Proof.
  unfold mbind. destruct (m s) as [[a|e|] s1]; [eauto|done|done].
Qed.

Lemma mbind_run {St A B} (m : M St A) (k : A → M St B) s a s1 :
  m s = (Return a, s1) → mbind m k s = k a s1.
Proof. unfold mbind. by intros ->. Qed.

Lemma mlift_Return {St A} (o : outcome A) (s s' : St) a :
  mlift o s = (Return a, s') → o = Return a ∧ s' = s.
Proof. unfold mlift. by intros [= -> ->]. Qed.

Lemma setattr_keeps_None self key value :
  key ≠ "id" → self !! "id" = Some None_ →
  ExecDriver.__setattr__ key value self !! "id" = Some None_.
Proof.
  intros Hk Hid. unfold ExecDriver.__setattr__, ExecDriver.object_setattr.
  rewrite lookup_insert_ne by done.
  destruct (ExecDriver.invalidates key value self); [|done].
  apply lookup_insert_eq.
Qed.

Ltac setattr_lookup :=
  repeat (rewrite setattr_lookup_other by discriminate);
  first [apply setattr_lookup_key | done].

Lemma minizinc_version_self self w r self' w' :
  ExecDriver.minizinc_version (self, w) = (r, (self', w')) → self' = self.
Proof.
  unfold ExecDriver.minizinc_version, mbind, ExecDriver.read, log_call, mlift.
  destruct (ExecDriver.getattr self "driver"); simpl; try by intros [= _ <- _].
  destruct (tool_version _ _); simpl; by intros [= _ <- _].
Qed.

Lemma Driver_init_Return name self w self' w' :
  ExecDriver.Driver__init__ name (self, w) = (Return tt, (self', w')) →
  self' = ExecDriver.__setattr__ "name" name self.
Proof.
  unfold ExecDriver.Driver__init__. intros H.
  apply mbind_Return in H as (? & [self1 w1] & E & H). injection E as <- <-.
  apply mbind_Return in H as (v & [self2 w2] & E & H).
  apply minizinc_version_self in E as ->.
  destruct (tuple_ge v required_version); [|done]. by injection H as <- _.
Qed.

Ltac step_assign H :=
  let E := fresh "E" in
  apply mbind_Return in H as ([] & [? ?] & E & H);
  unfold ExecDriver.assign in E; injection E as ? ?; subst.
Ltac step_alloc H :=
  let E := fresh "E" in
  apply mbind_Return in H as (? & [? ?] & E & H);
  unfold alloc in E; injection E as ? ? ?; subst.
Ltac step_lift H E :=
  apply mbind_Return in H as (? & [? ?] & E & H);
  apply mlift_Return in E as [E ?]; simplify_eq.

Lemma init_Return name version executable minizinc self w self' w' :
  ExecDriver.__init__ name version executable minizinc (self, w)
  = (Return tt, (self', w')) →
  ∃ v ints,
    val version = VStr v
    ∧ groups_to_ints (search_triple v) = Return ints
    ∧ init_post name executable
        (if is_None minizinc then default_driver w else minizinc) ints self'.
Proof.
  unfold ExecDriver.__init__. intros H.
  apply mbind_Return in H as (? & [self1 w1] & E & H). 
  injection E as <- <- <-.
  step_assign H.
  apply mbind_Return in H as ([] & [self3 w3] & E & H).
  apply Driver_init_Return in E as ->.
  step_assign H.
  step_lift H E1. step_lift H E2.
  unfold ExecDriver.search_version_arg in E1.
  destruct (val version) eqn:Ev; try done. injection E1 as <-.
  exists s. eexists. split; [done|]. split; [exact E2|].
  step_alloc H. step_assign H. step_assign H. step_assign H.
  step_alloc H. step_assign H. step_alloc H. step_assign H.
  step_alloc H. step_assign H.
  do 5 step_assign H.
  unfold ExecDriver.assign in H. injection H as ? ?; subst.
  split; try setattr_lookup.
  - repeat (rewrite setattr_keeps_None; [done|discriminate|]). apply setattr_lookup_key.
  - repeat (rewrite setattr_lookup_other by discriminate). by rewrite setattr_lookup_key.
  - repeat (rewrite setattr_lookup_other by discriminate). by rewrite setattr_lookup_key.
  - repeat (rewrite setattr_lookup_other by discriminate). by rewrite setattr_lookup_key.
  - repeat (rewrite setattr_lookup_other by discriminate). by rewrite setattr_lookup_key.
Qed.

(** Direct construction gives every optional field its own default. *)
Lemma new_Return name version executable minizinc w d w' :
  ExecDriver.new name version executable minizinc w = (Return d, w') →
  ∃ v ints,
    val version = VStr v
    ∧ groups_to_ints (search_triple v) = Return ints
    ∧ init_post name executable
        (if is_None minizinc then default_driver w else minizinc) ints d.
Proof.
  unfold ExecDriver.new, ExecDriver.construct.
  destruct (ExecDriver.__init__ name version executable minizinc (∅, w))
    as [[[]|e|] [self1 w1]] eqn:E; try done.
  intros [= <- <-]. by apply init_Return in E.
Qed.

Lemma overlay_Return info key self w self' w' :
  ExecDriver.overlay info key (self, w) = (Return tt, (self', w')) →
  ∃ m, self !! "mznlib" = Some m
       ∧ self' = ExecDriver.__setattr__ key (ExecDriver.info_get info key m) self
       ∧ w' = w.
Proof.
  unfold ExecDriver.overlay, mbind, ExecDriver.read, ExecDriver.getattr, ExecDriver.assign.
  destruct (self !! "mznlib") as [m|]; [|done].
  intros [= <- <-]. by exists m.
Qed.

Lemma find_solver_Some solver solvers names info names' :
  ExecDriver.find_solver solver solvers names = Return (Some info, names') →
  ∃ before after ns,
    solvers = before ++ info :: after
    ∧ ExecDriver.s_names info = Return ns
    ∧ existsb (eq_str solver) ns = true
    ∧ Forall (λ s, ∃ ns', ExecDriver.s_names s = Return ns'
                     ∧ existsb (eq_str solver) ns' = false) before.
Proof.
  revert names. induction solvers as [|s rest IH]; intros names; simpl; [done|].
  intros H. apply obind_Return in H as (ns & Hns & H).
  destruct (forallb hashable ns); [|done].
  destruct (existsb (eq_str solver) ns) eqn:Hm.
  - injection H as <- <-. exists [], rest, ns. by repeat split.
  - apply IH in H as (before & after & ns' & -> & ? & ? & ?).
    exists (s :: before), after, ns'. repeat split; try done.
    constructor; [|done]. by exists ns.
Qed.

(** C2, what the code does.  The record that [load_solver] returns takes
    [mznlib] from the descriptor, with [""] as its default; every other
    optional field is the descriptor's value when the key is present, and
    otherwise the value of the record's [mznlib] field at that moment: the
    library path, not the default of the field itself. *)
Theorem load_solver_overlay solver driver w ret w' :
  ExecDriver.load_solver solver driver w = (Return ret, w') →
  ∃ solvers info,
    tool_solvers (ext w) (val driver) = Return solvers
    ∧ info ∈ solvers
    ∧ ret !! "mznlib" = Some (ExecDriver.info_get info "mznlib" empty_str)
    ∧ (∀ k, k ∈ overlaid_fields →
         ret !! k = Some (ExecDriver.info_get info k
                            (ExecDriver.info_get info "mznlib" empty_str)))
    ∧ (∀ k, k ∈ overlaid_fields → dict_get info k = None →
         ret !! k = ret !! "mznlib")
    ∧ ret !! "id" = dict_get info "id".
Proof.
  unfold ExecDriver.load_solver, ExecDriver.construct. intros H.
  destruct (ExecDriver.load_solver_body solver driver (∅, w))
    as [[[]|e|] [self' w'']] eqn:Hb; try done.
  injection H as <- <-.
  unfold ExecDriver.load_solver_body in Hb.
  apply mbind_Return in Hb as ([] & [s0 w0] & E & Hb).
  unfold log_call in E. injection E as ? ?; subst.
  apply mbind_Return in Hb as (solvers & [s1 w1] & E & Hb).
  destruct (tool_solvers _ _) as [solvers'| |] eqn:Hs; try done.
  injection E as ? ? ?; subst.
  apply mbind_Return in Hb as ([info names] & [s2 w2] & E & Hb).
  apply mlift_Return in E as [Hfind ?]; simplify_eq.
  destruct info as [info|].
  2:{ apply mbind_Return in Hb as (? & [? ?] & _ & Hb). done. }
  apply find_solver_Some in Hfind as (before & after & ns & -> & _).
  exists (before ++ info :: after), info. split; [done|].
  split; [set_solver|].
  step_lift Hb E1. step_lift Hb E2. step_lift Hb E3.
  apply mbind_Return in Hb as ([] & [s3 w3] & E & Hb).
  apply init_Return in E as (v & ints & _ & _ & Hinit).
  destruct Hinit as [_ _ _ _ _ Hmznlib _ _ _ _ _ _ _ _ _].
  apply mbind_Return in Hb as ([] & [s4 w4] & E & Hb).
  apply overlay_Return in E as (m & Hm & -> & ->).
  rewrite Hmznlib in Hm. injection Hm as <-.
  set (mznlib := ExecDriver.info_get info "mznlib" empty_str) in *.
  set (r1 := ExecDriver.__setattr__ "mznlib" mznlib s3) in *.
  assert (H1 : r1 !! "mznlib" = Some mznlib) by apply setattr_lookup_key.
  clearbody r1.
  repeat (apply mbind_Return in Hb as ([] & [? ?] & E & Hb);
          apply overlay_Return in E as (? & Hm & -> & ->);
          repeat (rewrite setattr_lookup_other in Hm by discriminate);
          rewrite H1 in Hm; injection Hm as <-).
  match type of Hb with
  | _ (?r, _) = _ => remember r as r10 eqn:Hr10
  end.
  assert (Hfields : ∀ k, k ∈ overlaid_fields →
            r10 !! k = Some (ExecDriver.info_get info k mznlib)).
  { intros k Hk. unfold overlaid_fields in Hk. subst r10.
    repeat (apply elem_of_cons in Hk as [->|Hk];
            [repeat (rewrite setattr_lookup_other by discriminate);
             apply setattr_lookup_key|]).
    by apply elem_of_nil in Hk. }
  assert (Hlib : r10 !! "mznlib" = Some mznlib).
  { subst r10. by repeat (rewrite setattr_lookup_other by discriminate). }
  clear Hr10.
  step_lift Hb E4.
  unfold ExecDriver.assign in Hb. injection Hb as ? ?; subst.
  unfold getitem in E4. destruct (dict_get info "id") as [idv|] eqn:Hid; [|done].
  injection E4 as ->.
  assert (Hne : ∀ k, k ∈ overlaid_fields → k ≠ "id").
  { intros k Hk ->. revert Hk. apply (bool_decide_unpack _). by vm_compute. }
  split; [by rewrite setattr_lookup_other|].
  split.
  { intros k Hk. rewrite setattr_lookup_other; [by apply Hfields| |by apply Hne].
    intros ->. by apply (Hne "id"). }
  split.
  - intros k Hk Hnone.
    rewrite !setattr_lookup_other; try done; try by apply Hne.
    rewrite (Hfields k Hk), Hlib. unfold ExecDriver.info_get at 1. by rewrite Hnone.
  - apply setattr_lookup_key.
Qed.

(** ** Candidate names *)

Lemma split_on_nonempty s : split_on "." s ≠ [].
Proof.
  destruct s as [|c s]; simpl; [done|].
  destruct (Ascii.eqb c "."); [done|]. by destruct (split_on "." s).
Qed.

Lemma split_no_dot s : has_dot s = false → split_on "." s = [s].
Proof.
  induction s as [|c s IH]; simpl; [done|].
  destruct (Ascii.eqb c "."); simpl; [done|]. intros H. by rewrite (IH H).
Qed.

Lemma split_has_dot s :
  has_dot s = true → ∃ h h' t, split_on "." s = h :: h' :: t.
Proof.
  induction s as [|c s IH]; simpl; [done|].
  destruct (Ascii.eqb c "."); simpl.
  - intros _. destruct (split_on "." s) as [|h t] eqn:E.
    + by destruct (split_on_nonempty s).
    + eauto.
  - intros H. destruct (IH H) as (h & h' & t & ->). eauto.
Qed.

Lemma last_segment_cons c s :
  last_segment (String c s)
  = if Ascii.eqb c "." then last_segment s
    else if has_dot s then last_segment s else String c s.
Proof.
  unfold last_segment. simpl. destruct (Ascii.eqb c ".").
  - destruct (split_on "." s) eqn:E; [|done]. by destruct (split_on_nonempty s).
  - destruct (has_dot s) eqn:Hd.
    + destruct (split_has_dot s Hd) as (h & h' & t & ->). done.
    + by rewrite (split_no_dot s Hd).
Qed.

(** X21.  The second candidate name, [s["id"].split(".")[-1]]: it has no
    dot, and the identifier is either this segment itself or ends with a
    dot followed by it. *)
Lemma last_segment_spec i :
  has_dot (last_segment i) = false
  ∧ (i = last_segment i ∨ ∃ pre, i = pre +:+ "." +:+ last_segment i).
Proof.
  induction i as [|c s [Hnd IH]]; [split; [done|by left]|].
  rewrite last_segment_cons.
  destruct (Ascii.eqb_spec c ".") as [->|Hc].
  - split; [done|]. right. destruct IH as [IH|[pre IH]].
    + exists "". by rewrite IH at 1.
    + exists (String "." pre). by rewrite IH at 1.
  - destruct (has_dot s) eqn:Hd.
    + split; [done|]. right. destruct IH as [IH|[pre IH]].
      * rewrite IH in Hd. congruence.
      * exists (String c pre). by rewrite IH at 1.
    + split; [|by left]. simpl. rewrite Hd.
      by destruct (Ascii.eqb_spec c ".").
Qed.

Lemma nat_of_ascii_inj a b : nat_of_ascii a = nat_of_ascii b → a = b.
Proof. intros H. by rewrite <- (ascii_nat_embedding a), <- (ascii_nat_embedding b), H. Qed.

#[local] Instance str_le_total : Total str_le.
Proof.
  intros a. unfold str_le. induction a as [|x a IH]; intros [|y b]; simpl; auto.
  destruct (Nat.ltb_spec (nat_of_ascii x) (nat_of_ascii y)); [auto|].
  destruct (Nat.ltb_spec (nat_of_ascii y) (nat_of_ascii x)); [auto|].
  apply IH.
Qed.

#[local] Instance str_le_trans : Transitive str_le.
Proof.
  intros a. unfold str_le. induction a as [|x a IH]; intros [|y b] [|z c]; simpl; try done.
  destruct (Nat.ltb_spec (nat_of_ascii x) (nat_of_ascii y)),
           (Nat.ltb_spec (nat_of_ascii y) (nat_of_ascii x)),
           (Nat.ltb_spec (nat_of_ascii y) (nat_of_ascii z)),
           (Nat.ltb_spec (nat_of_ascii z) (nat_of_ascii y)),
           (Nat.ltb_spec (nat_of_ascii x) (nat_of_ascii z)),
           (Nat.ltb_spec (nat_of_ascii z) (nat_of_ascii x));
    try done; try lia.
  apply IH.
Qed.

Lemma str_le_antisym a b : str_le a b → str_le b a → a = b.
Proof.
  unfold str_le. revert b. induction a as [|x a IH]; intros [|y b]; simpl; try done.
  destruct (Nat.ltb_spec (nat_of_ascii x) (nat_of_ascii y)),
           (Nat.ltb_spec (nat_of_ascii y) (nat_of_ascii x)); try done; try lia.
  intros H1 H2. f_equal; [apply nat_of_ascii_inj; lia | by apply IH].
Qed.

Lemma StronglySorted_lt (l : list string) :
  StronglySorted str_le l → NoDup l → StronglySorted str_lt l.
Proof.
  induction 1 as [|x l Hs IH Hx]; intros Hnd; [constructor|].
  apply NoDup_cons in Hnd as [Hnot Hnd].
  constructor; [by apply IH|].
  apply Forall_forall. intros y Hy. split.
  - by eapply Forall_forall in Hx.
  - intros ->. done.
Qed.

Lemma sorted_names_strings (l : list string) :
  ExecDriver.sorted_names (map VStr l) = Return (merge_sort str_le (remove_dups l)).
Proof.
  unfold ExecDriver.sorted_names.
  assert (mapM ExecDriver.as_str (map VStr l) = Some l) as ->; [|done].
  induction l as [|x l IH]; [done|]. simpl. by rewrite IH.
Qed.

Lemma sorted_options_spec (l : list string) :
  StronglySorted str_lt (merge_sort str_le (remove_dups l))
  ∧ ∀ x, x ∈ merge_sort str_le (remove_dups l) ↔ x ∈ l.
Proof.
  split.
  - apply StronglySorted_lt.
    + apply (StronglySorted_merge_sort _).
    + rewrite merge_sort_Permutation. apply NoDup_remove_dups.
  - intros x. rewrite merge_sort_Permutation. apply elem_of_remove_dups.
Qed.

Lemma existsb_eq_str solver (l : list string) :
  existsb (eq_str solver) (map VStr l) = true ↔ solver ∈ l.
Proof.
  rewrite existsb_exists. split.
  - intros (v & Hin & Hv). apply in_map_iff in Hin as (s & <- & Hin).
    simpl in Hv. apply String.eqb_eq in Hv as ->. by apply list_elem_of_In.
  - intros H. exists (VStr solver). split.
    + apply in_map. by apply list_elem_of_In.
    + simpl. apply String.eqb_refl.
Qed.

Lemma hashable_strings (l : list string) : forallb hashable (map VStr l) = true.
Proof. by induction l. Qed.

Lemma mapM_as_str tags l :
  mapM ExecDriver.as_str tags = Some l → tags = map VStr l.
Proof.
  revert l. induction tags as [|t tags IH]; intros l; simpl.
  - by intros [= <-].
  - destruct t; simpl; try done.
    destruct (mapM ExecDriver.as_str tags) as [l'|]; simpl; [|done].
    intros [= <-]. simpl. by rewrite (IH l').
Qed.

Lemma s_names_conforming s ns :
  candidate_names s = Some ns → ExecDriver.s_names s = Return (map VStr ns).
Proof.
  unfold candidate_names, ExecDriver.s_names, getitem.
  destruct (dict_get s "id") as [[a v]|]; [|done].
  destruct v; try done. simpl.
  destruct (dict_get s "tags") as [[a' v']|].
  - destruct v'; try done. simpl.
    destruct (mapM ExecDriver.as_str l) as [t|] eqn:E; [|done].
    simpl. intros [= <-]. apply mapM_as_str in E as ->. done.
  - by intros [= <-].
Qed.

Lemma find_solver_none solver solvers names :
  Forall conforming solvers →
  (∀ s ns, s ∈ solvers → candidate_names s = Some ns → solver ∉ ns) →
  ∃ all_names,
    ExecDriver.find_solver solver solvers (map VStr names)
    = Return (None, map VStr (names ++ all_names))
    ∧ ∀ x, x ∈ all_names ↔
           ∃ s ns, s ∈ solvers ∧ candidate_names s = Some ns ∧ x ∈ ns.
Proof.
  revert names. induction solvers as [|s rest IH]; intros names Hc Hno.
  - exists []. simpl. rewrite app_nil_r. split; [done|].
    intros x. split; [by intros ?%elem_of_nil|]. intros (s & ns & Hs & _).
    by apply elem_of_nil in Hs.
  - apply Forall_cons in Hc as [[ns Hns] Hc].
    destruct (IH (names ++ ns) Hc) as (rest_names & Hfind & Hall).
    { intros s' ns' Hs'. apply Hno. by right. }
    exists (ns ++ rest_names). split.
    + simpl. rewrite (s_names_conforming _ _ Hns). simpl.
      rewrite hashable_strings.
      destruct (existsb (eq_str solver) (map VStr ns)) eqn:Hm.
      { apply existsb_eq_str in Hm. exfalso. eapply Hno; [|done..]. by left. }
      rewrite <- map_app, Hfind. by rewrite app_assoc.
    + intros x. rewrite elem_of_app, Hall. split.
      * intros [Hx | (s' & ns' & Hs' & Hns' & Hx)].
        -- exists s, ns. split; [by left|done].
        -- exists s', ns'. split; [by right|done].
      * intros (s' & ns' & Hs' & Hns' & Hx).
        apply elem_of_cons in Hs' as [->|Hs'].
        -- left. congruence.
        -- right. eauto.
Qed.

(** C9.  When the selector is in no descriptor's candidate name set,
    [load_solver] raises [LookupError] (the spec's SolverNotFoundError),
    and the list it carries is sorted, free of repetition, and holds
    exactly the candidate names of all descriptors of the response. *)
Theorem load_solver_not_found solver driver w solvers :
  tool_solvers (ext w) (val driver) = Return solvers →
  Forall conforming solvers →
  (∀ s names, s ∈ solvers → candidate_names s = Some names → solver ∉ names) →
  ∃ options,
    (ExecDriver.load_solver solver driver w).1 = Raise (LookupError solver options)
    ∧ StronglySorted str_lt options
    ∧ ∀ x, x ∈ options ↔
           ∃ s names, s ∈ solvers ∧ candidate_names s = Some names ∧ x ∈ names.
Proof.
  intros Hs Hc Hno.
  destruct (find_solver_none solver solvers [] Hc Hno) as (all_names & Hfind & Hall).
  simpl in Hfind.
  exists (merge_sort str_le (remove_dups all_names)).
  destruct (sorted_options_spec all_names) as [Hsorted Hmem].
  split; [|split; [done|]].
  - unfold ExecDriver.load_solver, ExecDriver.construct, ExecDriver.load_solver_body,
      mbind, log_call, mlift, mraise.
    simpl. rewrite Hs, Hfind, sorted_names_strings. done.
  - intros x. by rewrite Hmem, Hall.
Qed.

(** ** Materialisation and invocation *)

Section Scope.
Import ExecDriver.

Lemma NamedTemporaryFile_Return {St} prefix suffix (s s' : St) w w' name :
  NamedTemporaryFile prefix suffix (s, w) = (Return name, (s', w')) →
  s' = s ∧ files w !! name = None
  ∧ ∃ n, w' = set_files (<[name := None]> (files w)) (set_tmp_seq n w).
Proof.
  unfold NamedTemporaryFile.
  destruct (List.find _ _) as [n|] eqn:E; [|done].
  intros [= <- <- <-]. apply find_some in E as [_ E].
  apply bool_decide_eq_true in E. eauto.
Qed.

Lemma NamedTemporaryFile_free {St} prefix suffix (s : St) w :
  has_free_name prefix suffix w →
  ∃ name w', NamedTemporaryFile prefix suffix (s, w) = (Return name, (s, w')).
Proof.
  intros (n & Hn & Hfree). unfold NamedTemporaryFile.
  destruct (List.find _ _) as [m|] eqn:E; [eauto|].
  exfalso. eapply find_none in E.
  - by rewrite bool_decide_eq_true_2 in E.
  - apply in_seq. lia.
Qed.

(** [_gen_solver] up to its [yield], on a record without identity. *)
Lemma gen_solver_enter_None self w id name w1 doc :
  self !! "id" = Some id → is_None id = true →
  NamedTemporaryFile "minizinc_solver_" ".msc" (self, w) = (Return name, (self, w1)) →
  to_json self = Return doc →
  let ref := Obj (next_addr w1) (VStr name) in
  gen_solver_enter (self, w)
  = (Return (Some name, ref),
     (<["id" := ref]> self,
      set_next_addr (S (next_addr w1)) (set_files (<[name := Some doc]> (files w1)) w1))).
Proof.
  intros Hid Hnone Htmp Hdoc ref.
  unfold gen_solver_enter.
  rewrite (mbind_run _ _ _ id (self, w)); [|unfold read, getattr; by rewrite Hid].
  rewrite Hnone.
  rewrite (mbind_run _ _ _ _ _ Htmp).
  rewrite (mbind_run _ _ _ doc (self, w1)); [|by rewrite Hdoc].
  unfold mbind, file_write, alloc, assign, read, getattr, mret. simpl.
  rewrite setattr_lookup_key. reflexivity.
Qed.

Lemma gen_solver_enter_Some self w id :
  self !! "id" = Some id → is_None id = false →
  gen_solver_enter (self, w) = (Return (None, id), (self, w)).
Proof.
  intros Hid Hnone. unfold gen_solver_enter.
  rewrite (mbind_run _ _ _ id (self, w)); [|unfold read, getattr; by rewrite Hid].
  by rewrite Hnone.
Qed.

Lemma gen_solver_exit_Some name self w :
  is_Some (files w !! name) →
  gen_solver_exit (Some name) (self, w)
  = (Return tt, (<["id" := None_]> self, set_files (delete name (files w)) w)).
Proof.
  intros [c Hc]. unfold gen_solver_exit, mbind, file_close, assign. rewrite Hc.
  reflexivity.
Qed.

(** C3.  For a record whose identity is [None] when the scope is entered
    (and which can be serialised, on a host where [tempfile] finds a free
    name): one new temporary file is written, holding the serialisation;
    the body runs with the identity set to an object whose value is the
    location of that file; and however the body ends, by returning or by
    raising, with the file left in place, the scope ends the same way, the
    file is deleted and the identity is [None] again.  (A body that
    removes the file itself makes [file.close()] fail on interpreters
    whose [tempfile] does not tolerate a missing file.) *)
Theorem gen_solver_scope {A} (body : pyobj → Method A) self w id doc :
  self !! "id" = Some id → is_None id = true →
  to_json self = Return doc →
  has_free_name "minizinc_solver_" ".msc" w →
  ∃ name w_in,
    let ref := Obj (next_addr w) (VStr name) in
    files w !! name = None
    ∧ files w_in = <[name := Some doc]> (files w)
    ∧ run_calls w_in = run_calls w
    ∧ ∀ r self2 w2,
        body ref (<["id" := ref]> self, w_in) = (r, (self2, w2)) →
        is_Some (files w2 !! name) →
        _gen_solver body (self, w)
        = (r, (<["id" := None_]> self2, set_files (delete name (files w2)) w2)).
Proof.
  intros Hid Hnone Hdoc Hfree.
  destruct (NamedTemporaryFile_free _ _ self w Hfree) as (name & w1 & Htmp).
  pose proof (NamedTemporaryFile_Return _ _ _ _ _ _ _ Htmp) as (_ & Hfresh & n & Hw1).
  pose proof (gen_solver_enter_None _ _ _ _ _ _ Hid Hnone Htmp Hdoc) as Henter.
  simpl in Henter.
  exists name. eexists. 
  assert (Ha : next_addr w1 = next_addr w) by (by subst w1).
  rewrite Ha in Henter.
  split; [done|]. split; [|split].
  3:{ intros r self2 w2 Hbody Hkept.
      unfold _gen_solver. rewrite (mbind_run _ _ _ _ _ Henter). cbn [fst snd].
      unfold try_finally. rewrite Hbody.
      by rewrite (gen_solver_exit_Some _ _ _ Hkept). }
  - subst w1. simpl. apply insert_insert_eq.
  - by subst w1.
Qed.

Lemma gated_check flag tokens cmd self w stdFlags present :
  self !! "stdFlags" = Some stdFlags →
  str_in flag (val stdFlags) = Return present →
  gated true flag tokens cmd (self, w)
  = if present then (Return (cmd ++ tokens), (self, w))
    else (Raise (NotImplementedError
                   ("Solver does not support the " +:+ flag +:+ " flag")), (self, w)).
Proof.
  intros Hs Hp. unfold gated, mbind, read, getattr, mlift. rewrite Hs, Hp.
  by destruct present.
Qed.

(** The state does not change while the command is assembled. *)
Lemma build_cmd_state solver files_ processes random_seed free_search st :
  (build_cmd solver files_ processes random_seed free_search st).2 = st.
Proof.
  destruct st as [self w].
  assert (Hg : ∀ rq flag tokens cmd, (gated rq flag tokens cmd (self, w)).2 = (self, w)).
  { intros [] flag tokens cmd; [|done].
    unfold gated, mbind, read, getattr, mlift.
    destruct (self !! "stdFlags"); [|done].
    destruct (str_in flag _) as [[]| |]; done. }
  unfold build_cmd, mbind, read.
  destruct (getattr self "driver"); try done.
  repeat match goal with
  | |- context [gated ?rq ?flag ?tokens ?cmd (self, w)] =>
      let H := fresh in
      pose proof (Hg rq flag tokens cmd) as H;
      destruct (gated rq flag tokens cmd (self, w)) as [[?| |] ?];
      simpl in H; subst; try done
  end.
Qed.

Lemma gen_solver_exit_run_calls file self w :
  run_calls (gen_solver_exit file (self, w)).2.2 = run_calls w.
Proof.
  destruct file as [name|]; [|done].
  unfold gen_solver_exit, mbind, file_close. by destruct (files w !! name).
Qed.

Lemma gen_solver_enter_run_calls self w :
  run_calls (gen_solver_enter (self, w)).2.2 = run_calls w.
Proof.
  unfold gen_solver_enter, mbind, read.
  destruct (getattr self "id") as [id| |]; try done. simpl.
  destruct (is_None id); [|done].
  unfold NamedTemporaryFile.
  destruct (List.find _ _); [|done].
  destruct (to_json self); try done.
  unfold file_write, alloc, assign, mret. lazy beta iota zeta.
  unfold getattr. by rewrite setattr_lookup_key.
Qed.

Lemma read_Return key self w o s' :
  read key (self, w) = (Return o, s') → self !! key = Some o ∧ s' = (self, w).
Proof.
  unfold read, getattr. destruct (self !! key); [|done]. by intros [= -> <-].
Qed.

Lemma assign_Return key value self w (u : unit) s' :
  assign key value (self, w) = (Return u, s') → s' = (__setattr__ key value self, w).
Proof. unfold assign. by intros [= _ <-]. Qed.

Lemma alloc_Return {St} v (s : St) w o s' :
  alloc v (s, w) = (Return o, s') →
  o = Obj (next_addr w) v ∧ s' = (s, set_next_addr (S (next_addr w)) w).
Proof. unfold alloc. by intros [= <- <-]. Qed.

Lemma file_write_Return {St} name doc (s : St) w (u : unit) s' :
  file_write name doc (s, w) = (Return u, s') →
  s' = (s, set_files (<[name := Some doc]> (files w)) w).
Proof. unfold file_write. by intros [= _ <-]. Qed.

Lemma gen_solver_enter_Return self w file solver self1 w1 :
  gen_solver_enter (self, w) = (Return (file, solver), (self1, w1)) →
  self1 !! "id" = Some solver
  ∧ (∀ k, k ≠ "id" → self1 !! k = self !! k)
  ∧ run_calls w1 = run_calls w
  ∧ match file with
    | None => self1 = self ∧ w1 = w ∧ is_None solver = false
    | Some name =>
        val solver = VStr name ∧ files w !! name = None
        ∧ (∃ id, self !! "id" = Some id ∧ is_None id = true)
        ∧ ∃ doc, to_json self = Return doc
                 ∧ files w1 = <[name := Some doc]> (files w)
    end.
Proof.
  intros H.
  pose proof (gen_solver_enter_run_calls self w) as Hrc. rewrite H in Hrc.
  unfold gen_solver_enter in H.
  apply mbind_Return in H as (id & s0 & E & H).
  apply read_Return in E as [Hid ->].
  destruct (is_None id) eqn:Hnone.
  - apply mbind_Return in H as (name & [s1 w1'] & E & H).
    apply NamedTemporaryFile_Return in E as (-> & Hfresh & n & ->).
    apply mbind_Return in H as (doc & s2 & E & H).
    destruct (to_json self) as [doc'| |] eqn:Hdoc; try done.
    injection E as -> <-.
    apply mbind_Return in H as (u & s3 & E & H).
    apply file_write_Return in E as ->.
    apply mbind_Return in H as (fname & s4 & E & H).
    apply alloc_Return in E as [-> ->].
    apply mbind_Return in H as (u' & s5 & E & H).
    apply assign_Return in E as ->.
    apply mbind_Return in H as (sv & s6 & E & H).
    apply read_Return in E as [E ->]. rewrite setattr_lookup_key in E.
    injection E as <-.
    unfold mret in H. injection H as <- <- <- <-.
    split; [apply setattr_lookup_key|].
    split; [intros k Hk; by apply setattr_lookup_other|].
    split; [done|]. split; [done|]. split; [done|].
    split; [by eauto|]. exists doc. split; [done|].
    simpl. apply insert_insert_eq.
  - unfold mret in H. injection H as <- <- <- <-. by repeat split.
Qed.

Lemma solve_entered files_ processes random_seed free_search self w file solver st1 :
  gen_solver_enter (self, w) = (Return (file, solver), st1) →
  solve files_ processes random_seed free_search (self, w)
  = try_finally
      (cmd <- build_cmd solver files_ processes random_seed free_search ;;
       output <- subprocess_run cmd ;;
       mret (from_process output))%M
      (gen_solver_exit file) st1.
Proof.
  intros H. unfold solve, _gen_solver. by rewrite (mbind_run _ _ _ _ _ H).
Qed.

(** C4.  With ["-p"], ["-r"] and ["-f"] among the standard flags, and a
    request with [processes = 4], [random_seed = 7] and a true
    [free_search], the command assembled inside the scope, and handed to
    [subprocess.run], is the base tool, ["--solver"], the materialised
    reference, ["--output-mode"], ["json"], ["--output-time"], ["-p"], [4],
    ["-r"], [7], ["-f"], and then the files of the instance in their
    order.  The materialised reference is what the scope yields: the
    identity the record has inside the scope. *)
Theorem solve_command self w driver stdFlags files_ processes random_seed free_search
    file solver st1 :
  self !! "driver" = Some driver →
  self !! "stdFlags" = Some stdFlags →
  str_in "-p" (val stdFlags) = Return true →
  str_in "-r" (val stdFlags) = Return true →
  str_in "-f" (val stdFlags) = Return true →
  is_None processes = false → val processes = VInt 4 →
  is_None random_seed = false → val random_seed = VInt 7 →
  truthy (val free_search) = true →
  gen_solver_enter (self, w) = (Return (file, solver), st1) →
  let cmd :=
    [val driver; VStr "--solver"; val solver; VStr "--output-mode"; VStr "json";
     VStr "--output-time"; VStr "-p"; VInt 4; VStr "-r"; VInt 7; VStr "-f"]
    ++ files_ in
  (build_cmd solver files_ processes random_seed free_search st1).1 = Return cmd
  ∧ run_calls (solve files_ processes random_seed free_search (self, w)).2.2
    = run_calls w ++ [cmd]
  ∧ st1.1 !! "id" = Some solver.
Proof.
  intros Hd Hs Hp Hr Hf Hpn Hpv Hrn Hrv Hft Henter cmd.
  destruct st1 as [self1 w1].
  pose proof (gen_solver_enter_Return _ _ _ _ _ _ Henter) as (Hsolver & Hkeep & Hrc & _).
  enough (Hm : _ ∧ _) by exact (conj (proj1 Hm) (conj (proj2 Hm) Hsolver)).
  assert (Hd1 : self1 !! "driver" = Some driver) by (by rewrite Hkeep).
  assert (Hs1 : self1 !! "stdFlags" = Some stdFlags) by (by rewrite Hkeep).
  assert (Hb : build_cmd solver files_ processes random_seed free_search (self1, w1)
               = (Return cmd, (self1, w1))).
  { unfold build_cmd.
    rewrite (mbind_run _ _ _ driver (self1, w1));
      [|unfold read, getattr; by rewrite Hd1].
    rewrite Hpn, Hrn, Hft. cbn [negb].
    rewrite (mbind_run _ _ _ _ _ (gated_check _ _ _ _ _ _ _ Hs1 Hp)).
    rewrite (mbind_run _ _ _ _ _ (gated_check _ _ _ _ _ _ _ Hs1 Hr)).
    rewrite (mbind_run _ _ _ _ _ (gated_check _ _ _ _ _ _ _ Hs1 Hf)).
    unfold mret. by rewrite Hpv, Hrv. }
  split; [by rewrite Hb|].
  rewrite (solve_entered _ _ _ _ _ _ _ _ _ Henter).
  unfold try_finally. rewrite (mbind_run _ _ _ _ _ Hb).
  unfold subprocess_run, mbind, log_call, mret. lazy beta iota zeta.
  match goal with
  | |- context [launch ?o ?c] => destruct (launch o c) as [output|e|]
  end; lazy beta iota zeta.
  all: match goal with
  | |- context [gen_solver_exit ?f (?s, ?w')] =>
      pose proof (gen_solver_exit_run_calls f s w') as Hx;
      destruct (gen_solver_exit f (s, w')) as [[?| |] [? ?]]
  end; simpl in Hx |- *; by rewrite Hx, Hrc.
Qed.

Lemma gated_passes rq flag tokens cmd self w stdFlags :
  self !! "stdFlags" = Some stdFlags → passes rq flag (val stdFlags) →
  ∃ cmd', gated rq flag tokens cmd (self, w) = (Return cmd', (self, w)).
Proof.
  intros Hs [->|Hp]; [by eexists|].
  destruct rq; [|by eexists].
  rewrite (gated_check _ _ _ _ _ _ _ Hs Hp). by eexists.
Qed.

Lemma gated_rejects rq flag tokens cmd self w stdFlags :
  self !! "stdFlags" = Some stdFlags → rejects rq flag (val stdFlags) →
  gated rq flag tokens cmd (self, w) = (Raise (unsupported flag), (self, w)).
Proof. intros Hs [-> Hp]. by rewrite (gated_check _ _ _ _ _ _ _ Hs Hp). Qed.

Lemma mbind_raise {St A B} (m : M St A) (k : A → M St B) s e s1 :
  m s = (Raise e, s1) → mbind m k s = (Raise e, s1).
Proof. unfold mbind. by intros ->. Qed.

(** When the command assembly raises, [solve] raises the same exception
    and gives no command to [subprocess.run]. *)
Lemma solve_build_raises files_ processes random_seed free_search
    self w file solver self1 w1 e :
  gen_solver_enter (self, w) = (Return (file, solver), (self1, w1)) →
  build_cmd solver files_ processes random_seed free_search (self1, w1)
  = (Raise e, (self1, w1)) →
  (solve files_ processes random_seed free_search (self, w)).1 = Raise e
  ∧ run_calls (solve files_ processes random_seed free_search (self, w)).2.2
    = run_calls w.
Proof.
  intros Henter Hb.
  pose proof (gen_solver_enter_Return _ _ _ _ _ _ Henter) as (_ & _ & Hrc & Hfile).
  rewrite (solve_entered _ _ _ _ _ _ _ _ _ Henter).
  unfold try_finally. rewrite (mbind_raise _ _ _ _ _ Hb). lazy beta iota zeta.
  destruct file as [name|].
  - destruct Hfile as (_ & _ & _ & doc & _ & Hfiles).
    rewrite gen_solver_exit_Some; [done|]. rewrite Hfiles, lookup_insert_eq. by eexists.
  - done.
Qed.

(** C5.  A requested option whose flag is not among the standard flags
    makes [solve] raise [NotImplementedError] (the spec's
    UnsupportedCapabilityError) with the message that names the flag: the
    first such flag in the order [-p], [-r], [-f].  No command has been
    given to [subprocess.run] when the call ends. *)
Theorem solve_unsupported self w driver stdFlags files_ processes random_seed free_search
    file solver st1 :
  self !! "driver" = Some driver →
  self !! "stdFlags" = Some stdFlags →
  gen_solver_enter (self, w) = (Return (file, solver), st1) →
  let p := negb (is_None processes) in
  let r := negb (is_None random_seed) in
  let f := truthy (val free_search) in
  let flags := val stdFlags in
  let result := solve files_ processes random_seed free_search (self, w) in
  (rejects p "-p" flags →
     result.1 = Raise (unsupported "-p") ∧ run_calls result.2.2 = run_calls w)
  ∧ (passes p "-p" flags → rejects r "-r" flags →
     result.1 = Raise (unsupported "-r") ∧ run_calls result.2.2 = run_calls w)
  ∧ (passes p "-p" flags → passes r "-r" flags → rejects f "-f" flags →
     result.1 = Raise (unsupported "-f") ∧ run_calls result.2.2 = run_calls w).
Proof.
  intros Hd Hs Henter p r f flags result. subst result.
  destruct st1 as [self1 w1].
  pose proof (gen_solver_enter_Return _ _ _ _ _ _ Henter) as (_ & Hkeep & _).
  assert (Hd1 : self1 !! "driver" = Some driver) by (by rewrite Hkeep).
  assert (Hs1 : self1 !! "stdFlags" = Some stdFlags) by (by rewrite Hkeep).
  assert (Hread : read "driver" (self1, w1) = (Return driver, (self1, w1)))
    by (unfold read, getattr; by rewrite Hd1).
  split; [|split].
  - intros Hp. eapply solve_build_raises; [done|]. unfold build_cmd.
    rewrite (mbind_run _ _ _ _ _ Hread).
    by rewrite (mbind_raise _ _ _ _ _ (gated_rejects _ _ _ _ _ _ _ Hs1 Hp)).
  - intros Hp Hr. eapply solve_build_raises; [done|]. unfold build_cmd.
    rewrite (mbind_run _ _ _ _ _ Hread).
    edestruct (gated_passes p "-p") as [cmd1 Hg1]; [done..|].
    rewrite (mbind_run _ _ _ _ _ Hg1).
    by rewrite (mbind_raise _ _ _ _ _ (gated_rejects _ _ _ _ _ _ _ Hs1 Hr)).
  - intros Hp Hr Hf. eapply solve_build_raises; [done|]. unfold build_cmd.
    rewrite (mbind_run _ _ _ _ _ Hread).
    edestruct (gated_passes p "-p") as [cmd1 Hg1]; [done..|].
    rewrite (mbind_run _ _ _ _ _ Hg1).
    edestruct (gated_passes r "-r") as [cmd2 Hg2]; [done..|].
    rewrite (mbind_run _ _ _ _ _ Hg2).
    by rewrite (mbind_raise _ _ _ _ _ (gated_rejects _ _ _ _ _ _ _ Hs1 Hf)).
Qed.

Lemma solve_body_state solver files_ processes random_seed free_search self w :
  ∃ r w2,
    (cmd <- build_cmd solver files_ processes random_seed free_search ;;
     output <- subprocess_run cmd ;;
     mret (from_process output))%M (self, w) = (r, (self, w2))
    ∧ files w2 = files w.
Proof.
  pose proof (build_cmd_state solver files_ processes random_seed free_search (self, w))
    as Hst.
  unfold mbind at 1.
  destruct (build_cmd solver files_ processes random_seed free_search (self, w))
    as [[cmd|e|] st]; simpl in Hst; subst st; [|by eauto..].
  unfold subprocess_run, mbind, log_call, mret. lazy beta iota zeta.
  destruct (launch _ cmd); by eauto.
Qed.

(** X15.  The scope as [solve] uses it: whatever the invocation does, the record
    has no identity afterwards and the temporary files are those there
    were before. *)
Theorem solve_releases self w id doc files_ processes random_seed free_search :
  self !! "id" = Some id → is_None id = true →
  to_json self = Return doc →
  has_free_name "minizinc_solver_" ".msc" w →
  let result := solve files_ processes random_seed free_search (self, w) in
  result.2.1 = <["id" := None_]> self
  ∧ result.2.1 !! "id" = Some None_
  ∧ files result.2.2 = files w.
Proof.
  intros Hid Hnone Hdoc Hfree result. subst result.
  destruct (NamedTemporaryFile_free _ _ self w Hfree) as (name & w1 & Htmp).
  pose proof (NamedTemporaryFile_Return _ _ _ _ _ _ _ Htmp) as (_ & Hfresh & n & Hw1).
  pose proof (gen_solver_enter_None _ _ _ _ _ _ Hid Hnone Htmp Hdoc) as Henter.
  cbv zeta in Henter.
  rewrite (solve_entered _ _ _ _ _ _ _ _ _ Henter).
  match type of Henter with
  | _ = (_, (?self_in, ?w_in)) =>
      destruct (solve_body_state (Obj (next_addr w1) (VStr name)) files_ processes
                  random_seed free_search self_in w_in)
        as (r & w2 & Hbody & Hfiles)
  end.
  unfold try_finally. rewrite Hbody.
  assert (Hin : files w2 = <[name := Some doc]> (files w)).
  { rewrite Hfiles. subst w1. simpl. apply insert_insert_eq. }
  rewrite gen_solver_exit_Some by (rewrite Hin, lookup_insert_eq; by eexists).
  cbn [fst snd]. split; [apply insert_insert_eq|].
  split; [apply lookup_insert_eq|].
  simpl. rewrite Hin. by apply delete_insert_id.
Qed.

End Scope.

(** ** Driver detection *)


Lemma find_minizinc_fallback name path w :
  LoadLibrary (ext w)
    (match path with
     | None => environ w
     | Some dirs => <["LD_LIBRARY_PATH" := String.concat ":" dirs]> (environ w)
     end) name = None ->
  exists w',
    default_driver w' = default_driver w
    /\ find_minizinc name path w
       = match shutil_which (ext w) name path with
         | Return (Some p) =>
             if truthy (VStr p)
             then (Return (Obj (next_addr w) (VPath p)), set_next_addr (S (next_addr w)) w')
             else (Return (Obj (next_addr w) (VStr p)), set_next_addr (S (next_addr w)) w')
         | Return None => (Return None_, w')
         | Raise e => (Raise e, w')
         | Unmodelled => (Unmodelled, w')
         end.
Proof.
  intros H. unfold find_minizinc.
  destruct path as [dirs|]; simpl in *; rewrite H; eexists; (split; [|reflexivity]); done.
Qed.



(** ** The properties at the sample data *)

(** A pair is known by its first component. *)
Lemma pair_from_fst {A B} (x : A * B) (a : A) : x.1 = a -> x = (a, x.2).
Proof. destruct x. simpl. by intros ->. Qed.

Lemma loaded_gecode_eq :
  ExecDriver.load_solver "gecode" minizinc_path sample_world
  = (Return loaded_gecode.1, loaded_gecode.2).
Proof.
  assert (H : match (ExecDriver.load_solver "gecode" minizinc_path sample_world).1 with
              | Return _ => true
              | _ => false
              end = true) by (by vm_compute).
  unfold loaded_gecode.
  by destruct (ExecDriver.load_solver "gecode" minizinc_path sample_world) as [[d| |] w].
Qed.

Lemma gen_solver_scope_witness :
  let body : pyobj -> ExecDriver.Method unit := fun _ => mraise TypeError in
  let result := ExecDriver._gen_solver body (constructed.1, constructed.2) in
  result.1 = Raise TypeError
  /\ result.2.1 !! "id" = Some None_
  /\ files result.2.2 = files constructed.2.
Proof.
  intros body result. subst result.
  destruct (gen_solver_scope body constructed.1 constructed.2 None_ constructed_doc)
    as (name & w_in & Hfresh & Hin & _ & Hscope).
  - reflexivity.
  - reflexivity.
  - by vm_compute.
  - exists 0%nat. split; [vm_compute; lia|reflexivity].
  - rewrite (Hscope (Raise TypeError) _ _ eq_refl).
    + cbn [fst snd]. split; [done|]. split; [apply lookup_insert_eq|].
      simpl. rewrite Hin. by apply delete_insert_id.
    + rewrite Hin, lookup_insert_eq. by eexists.
Defined.

Lemma solve_command_witness :
  run_calls
    (ExecDriver.solve [VPath "model.mzn"; VPath "data.dzn"]
       (Obj 61 (VInt 4)) (Obj 62 (VInt 7)) True_ (registered, constructed.2)).2.2
  = run_calls constructed.2
    ++ [[VPath "/usr/bin/minizinc"; VStr "--solver"; VStr "org.gecode.gecode";
         VStr "--output-mode"; VStr "json"; VStr "--output-time";
         VStr "-p"; VInt 4; VStr "-r"; VInt 7; VStr "-f";
         VPath "model.mzn"; VPath "data.dzn"]].
Proof.
  refine (proj1 (proj2 (solve_command registered constructed.2 minizinc_path
                   (Obj 60 (VList [VStr "-p"; VStr "-r"; VStr "-f"]))
                   [VPath "model.mzn"; VPath "data.dzn"]
                   (Obj 61 (VInt 4)) (Obj 62 (VInt 7)) True_
                   None (Obj 70 (VStr "org.gecode.gecode")) (registered, constructed.2)
                   _ _ _ _ _ _ _ _ _ _ _))); reflexivity.
Defined.

Lemma solve_unsupported_witness :
  let result :=
    ExecDriver.solve [VPath "model.mzn"] (Obj 61 (VInt 4)) None_ False_
      (constructed.1, constructed.2) in
  result.1 = Raise (NotImplementedError "Solver does not support the -p flag")
  /\ run_calls result.2.2 = run_calls constructed.2.
Proof.
  refine (proj1 (solve_unsupported constructed.1 constructed.2 minizinc_path
                   (Obj 102 (VList [])) [VPath "model.mzn"]
                   (Obj 61 (VInt 4)) None_ False_
                   (Some "/tmp/minizinc_solver_0.msc")
                   (Obj 104 (VStr "/tmp/minizinc_solver_0.msc"))
                   (ExecDriver.gen_solver_enter (constructed.1, constructed.2)).2
                   _ _ _) _).
  - by vm_compute.
  - by vm_compute.
  - apply pair_from_fst. by vm_compute.
  - split; reflexivity.
Defined.

(** C2 at the sample registry: the descriptor of Gecode has none of the
    optional keys, and the record that [load_solver] returns has the empty
    library path in every optional field, [supportsFzn] included. *)
Lemma load_solver_overlay_witness :
  ExecDriver.load_solver "gecode" minizinc_path sample_world
  = (Return loaded_gecode.1, loaded_gecode.2)
  /\ loaded_gecode.1 !! "supportsFzn" = Some empty_str
  /\ loaded_gecode.1 !! "supportsMzn" = Some empty_str
  /\ loaded_gecode.1 !! "needsSolns2Out" = Some empty_str
  /\ loaded_gecode.1 !! "isGUIApplication" = Some empty_str
  /\ loaded_gecode.1 !! "tags" = Some empty_str
  /\ loaded_gecode.1 !! "stdFlags" = Some empty_str
  /\ exists info,
       info ∈ [gecode; chuffed]
       /\ loaded_gecode.1 !! "id" = dict_get info "id"
       /\ forall k, k ∈ overlaid_fields -> dict_get info k = None ->
                    loaded_gecode.1 !! k = loaded_gecode.1 !! "mznlib".
Proof.
  split; [exact loaded_gecode_eq|]. do 6 (split; [by vm_compute|]).
  destruct (load_solver_overlay "gecode" minizinc_path sample_world
              loaded_gecode.1 loaded_gecode.2)
    as (solvers & info & Hs & Hin & _ & _ & Habsent & Hid).
  - exact loaded_gecode_eq.
  - injection Hs as <-. exists info. exact (conj Hin (conj Hid Habsent)).
Defined.

(** C9 at the sample registry. *)
Lemma load_solver_not_found_witness :
  exists options,
    (ExecDriver.load_solver "gurobi" minizinc_path sample_world).1
    = Raise (LookupError "gurobi" options)
    /\ StronglySorted str_lt options
    /\ forall x, x ∈ options <->
         exists s names, s ∈ [gecode; chuffed] /\ candidate_names s = Some names
                         /\ x ∈ names.
Proof.
  apply (load_solver_not_found "gurobi" minizinc_path sample_world [gecode; chuffed]).
  - reflexivity.
  - repeat constructor; by eexists.
  - intros s names Hs Hn.
    apply elem_of_cons in Hs as [->|Hs]; [|apply elem_of_cons in Hs as [->|Hs]].
    + vm_compute in Hn. injection Hn as <-. apply (bool_decide_unpack _). by vm_compute.
    + vm_compute in Hn. injection Hn as <-. apply (bool_decide_unpack _). by vm_compute.
    + by apply elem_of_nil in Hs.
Defined.

(** The list that the error carries at the sample registry. *)
Lemma load_solver_not_found_options :
  (ExecDriver.load_solver "gurobi" minizinc_path sample_world).1
  = Raise (LookupError "gurobi"
             ["chuffed"; "cp"; "gecode"; "int"; "lcg";
              "org.chuffed.chuffed"; "org.gecode.gecode"]).
Proof. by vm_compute. Qed.



(** * Further properties *)

(** ** Assignment *)

(** X1.  An assignment [self.key = value] stores [value] under [key] and
    touches nothing else, except possibly [id]: every attribute other than
    [key] and [id] keeps its value, and [id] either keeps its value or
    becomes [None]. *)
Theorem setattr_frame (self : ExecDriver.inst) (key : string) (value : pyobj) :
  ExecDriver.__setattr__ key value self !! key = Some value
  ∧ (∀ k, k ≠ key → k ≠ "id" →
       ExecDriver.__setattr__ key value self !! k = self !! k)
  ∧ (key ≠ "id" →
       ExecDriver.__setattr__ key value self !! "id" = self !! "id"
       ∨ ExecDriver.__setattr__ key value self !! "id" = Some None_).
Proof.
  split; [apply setattr_lookup_key|]. split.
  - intros k Hk Hid. by apply setattr_lookup_other.
  - intros Hne. unfold ExecDriver.__setattr__, ExecDriver.object_setattr.
    rewrite lookup_insert_ne by done.
    destruct (ExecDriver.invalidates key value self); [right|by left].
    apply lookup_insert_eq.
Qed.

(** X2.  Assigning the same object to the same attribute twice in a row
    leaves the record as one assignment does: the second assignment finds
    the attribute referring to that very object and changes nothing. *)
Theorem setattr_idempotent (self : ExecDriver.inst) (key : string) (value : pyobj) :
  ExecDriver.__setattr__ key value (ExecDriver.__setattr__ key value self)
  = ExecDriver.__setattr__ key value self.
Proof.
  unfold ExecDriver.__setattr__ at 1.
  assert (ExecDriver.invalidates key value (ExecDriver.__setattr__ key value self) = false)
    as ->.
  { unfold ExecDriver.invalidates, ExecDriver.getattr_default.
    rewrite setattr_lookup_key. simpl. unfold py_is. rewrite Nat.eqb_refl.
    by rewrite andb_false_r. }
  unfold ExecDriver.object_setattr. apply insert_id, setattr_lookup_key.
Qed.

(** ** The depth of the re-entrant assignment *)

(** X3.  The statement [self.id = None] inside [__setattr__] re-enters
    [__setattr__], and the recursion stops there: ["id"] is not one of the
    listed names.  One level of the method is enough exactly when the
    assignment does not invalidate the identity, two levels are always
    enough, and an invalidating assignment stores [None] under [id] and
    then the value under the key. *)
Theorem setattr_reentry_depth (self : ExecDriver.inst) (key : string) (value : pyobj)
    (fuel : nat) :
  ExecDriver.setattr_fuel 0 key value self = None
  ∧ (ExecDriver.setattr_fuel 1 key value self
     = if ExecDriver.invalidates key value self then None
       else Some (ExecDriver.object_setattr key value self))
  ∧ ExecDriver.setattr_fuel (2 + fuel) key value self
    = Some (ExecDriver.__setattr__ key value self)
  ∧ (ExecDriver.invalidates key value self = true →
     ExecDriver.__setattr__ key value self
     = ExecDriver.object_setattr key value
         (ExecDriver.object_setattr "id" None_ self)).
Proof.
  split; [done|]. split.
  { simpl. by destruct (ExecDriver.invalidates key value self). }
  split; [apply setattr_fuel_spec|].
  intros H. unfold ExecDriver.__setattr__. by rewrite H.
Qed.

(** ** Construction *)

(** The lexicographic order against [required_version]. *)
Lemma tuple_ge_required (a b c : Z) :
  tuple_ge [a; b; c] required_version = true ↔
  (2 < a ∨ (a = 2 ∧ 2 < b) ∨ (a = 2 ∧ b = 2 ∧ 0 ≤ c))%Z.
Proof.
  unfold required_version. simpl.
  destruct (Z.ltb_spec 2 a), (Z.ltb_spec a 2), (Z.ltb_spec 2 b), (Z.ltb_spec b 2),
    (Z.ltb_spec 0 c), (Z.ltb_spec c 0); split; try done; try lia.
Qed.

Lemma int_acc_nonneg s acc : (0 ≤ acc)%Z → all_digits s = true → (0 ≤ int_acc acc s)%Z.
Proof.
  revert acc. induction s as [|c s IH]; intros acc Hacc Hd; simpl; [done|].
  unfold all_digits in Hd. simpl in Hd. apply andb_true_iff in Hd as [Hc Hd].
  apply IH; [|done]. unfold digit_value, is_digit in *.
  apply andb_true_iff in Hc as [H1 H2].
  apply Nat.leb_le in H1. lia.
Qed.

Lemma mbind_step {St A B} (m : M St A) (k : A → M St B) s o s1 :
  m s = (o, s1) →
  mbind m k s = match o with
                | Return a => k a s1
                | Raise e => (Raise e, s1)
                | Unmodelled => (Unmodelled, s1)
                end.
Proof. unfold mbind. by intros ->. Qed.

(** What the state is when the version probe of [__init__] has run. *)
Lemma init_probe name minizinc w text :
  let driver := if is_None minizinc then default_driver w else minizinc in
  tool_version (ext w) (val driver) = Return text →
  ExecDriver.Driver__init__ name
    (ExecDriver.__setattr__ "driver" driver ∅, w)
  = (match groups_to_ints (search_version_triple text) with
     | Return v => if tuple_ge v required_version then Return tt else Raise AssertionError
     | Raise e => Raise e
     | Unmodelled => Unmodelled
     end,
     (ExecDriver.__setattr__ "name" name (ExecDriver.__setattr__ "driver" driver ∅),
      set_run_calls (run_calls w ++ [[val driver; VStr "--version"]]) w)).
Proof.
  intros driver Ht.
  unfold ExecDriver.Driver__init__.
  rewrite (mbind_run _ _ _ tt
             (ExecDriver.__setattr__ "name" name
                (ExecDriver.__setattr__ "driver" driver ∅), w)); [|done].
  assert (Hd : ExecDriver.__setattr__ "name" name
                 (ExecDriver.__setattr__ "driver" driver ∅) !! "driver" = Some driver).
  { rewrite setattr_lookup_other by done. apply setattr_lookup_key. }
  rewrite (mbind_step _ _ _ _ _ (minizinc_version_run _ w driver text Hd Ht)).
  by destruct (groups_to_ints (search_version_triple text)) as [v| |];
    [destruct (tuple_ge v required_version)| |].
Qed.

(** ** The version probe *)

(** X4.  The version probe leaves the record and the files as they are.
    Without a [driver] attribute it raises [AttributeError] and runs
    nothing; otherwise it runs exactly one command, the driver with
    [--version], passes on the error of a failing tool, and parses the
    output of a succeeding one. *)
Theorem minizinc_version_effect (self : ExecDriver.inst) (w : world) :
  let result := ExecDriver.minizinc_version (self, w) in
  result.2.1 = self
  ∧ files result.2.2 = files w
  ∧ match self !! "driver" with
    | None => result = (Raise AttributeError, (self, w))
    | Some driver =>
        run_calls result.2.2 = run_calls w ++ [[val driver; VStr "--version"]]
        ∧ (∀ e, tool_version (ext w) (val driver) = Raise e → result.1 = Raise e)
        ∧ (∀ text, tool_version (ext w) (val driver) = Return text →
             result.1 = groups_to_ints (search_version_triple text))
    end.
Proof.
  unfold ExecDriver.minizinc_version, mbind, ExecDriver.read, ExecDriver.getattr,
    log_call, mlift.
  destruct (self !! "driver") as [driver|]; [|done].
  lazy beta iota zeta. cbn [ext set_run_calls].
  destruct (tool_version (ext w) (val driver)) as [text|e|]; cbn [fst snd].
  - split; [done|]. split; [done|]. split; [done|]. split; [done|].
    by intros ? [= <-].
  - split; [done|]. split; [done|]. split; [done|]. split; [|done].
    by intros ? [= <-].
  - done.
Qed.

(** [__init__] up to the version gate: the probe has run and the gate has
    decided. *)
Ltac init_to_gate driver w Hprobe :=
  unfold ExecDriver.new, ExecDriver.construct, ExecDriver.__init__;
  rewrite (mbind_run _ _ _ driver (∅, w)) by done;
  rewrite (mbind_run _ _ _ tt (ExecDriver.__setattr__ "driver" driver ∅, w)) by done;
  rewrite (mbind_step _ _ _ _ _ Hprobe).

Lemma first_occurrence_version text a b c :
  first_occurrence "version " text (a, b, c) →
  groups_to_ints (search_version_triple text)
  = Return [int_of_digits a; int_of_digits b; int_of_digits c]
    ∧ (0 ≤ int_of_digits c)%Z.
Proof.
  intros Hf. pose proof Hf as (pre & rest & (_ & _ & _ & _ & Hc) & _).
  apply search_version_triple_first_occurrence in Hf as ->.
  split; [done|]. by apply int_acc_nonneg.
Qed.

(** X5.  With a tool whose [--version] output carries the version
    [a.b.c], constructing an [ExecDriver] raises [AssertionError], after
    the one [--version] call, exactly when that version is below 2.2.0,
    that is when [a < 2], or [a = 2] and [b < 2]. *)
Theorem new_version_gate name version executable minizinc w text a b c :
  let driver := if is_None minizinc then default_driver w else minizinc in
  tool_version (ext w) (val driver) = Return text →
  first_occurrence "version " text (a, b, c) →
  ExecDriver.new name version executable minizinc w
  = (Raise AssertionError,
     set_run_calls (run_calls w ++ [[val driver; VStr "--version"]]) w)
  ↔ (int_of_digits a < 2 ∨ (int_of_digits a = 2 ∧ int_of_digits b < 2))%Z.
Proof.
  intros driver Ht Hf.
  apply first_occurrence_version in Hf as [Hv Hc].
  pose proof (init_probe name minizinc w text Ht) as Hprobe. fold driver in Hprobe.
  rewrite Hv in Hprobe.
  pose proof (tuple_ge_required (int_of_digits a) (int_of_digits b) (int_of_digits c))
    as Hreq.
  init_to_gate driver w Hprobe.
  destruct (tuple_ge _ required_version) eqn:Hge.
  - split; [|intros ?; apply proj1 in Hreq; specialize (Hreq eq_refl); lia].
    rewrite (mbind_run _ _ _ tt (ExecDriver.__setattr__ "id" None_ (ExecDriver.__setattr__ "name" name (ExecDriver.__setattr__ "driver" driver ∅)), set_run_calls (run_calls w ++ [[val driver; VStr "--version"]]) w)) by done.
    unfold mbind at 1, mlift at 1.
    unfold ExecDriver.search_version_arg.
    destruct (val version) as [| | |s| | | | |]; try done.
    unfold mbind at 1, mlift at 1.
    destruct (search_triple s) as [[[? ?] ?]|]; [|done].
    by cbv [groups_to_ints mbind ExecDriver.assign alloc mlift mret].
  - split; [intros _|done].
    assert (Hn : ¬ ((2 < int_of_digits a)%Z
                    ∨ int_of_digits a = 2%Z ∧ (2 < int_of_digits b)%Z
                    ∨ int_of_digits a = 2%Z ∧ int_of_digits b = 2%Z
                      ∧ (0 ≤ int_of_digits c)%Z)).
    { intros HP. by apply Hreq in HP. }
    lia.
Qed.

Lemma probe_passes name minizinc w text a b c :
  let driver := if is_None minizinc then default_driver w else minizinc in
  tool_version (ext w) (val driver) = Return text →
  first_occurrence "version " text (a, b, c) →
  (2 < int_of_digits a ∨ (int_of_digits a = 2 ∧ 2 ≤ int_of_digits b))%Z →
  ExecDriver.Driver__init__ name (ExecDriver.__setattr__ "driver" driver ∅, w)
  = (Return tt,
     (ExecDriver.__setattr__ "name" name (ExecDriver.__setattr__ "driver" driver ∅),
      set_run_calls (run_calls w ++ [[val driver; VStr "--version"]]) w)).
Proof.
  intros driver Ht Hf Hok.
  apply first_occurrence_version in Hf as [Hv Hc].
  pose proof (init_probe name minizinc w text Ht) as Hprobe. fold driver in Hprobe.
  rewrite Hv in Hprobe. rewrite Hprobe.
  replace (tuple_ge _ required_version) with true; [done|].
  symmetry. apply tuple_ge_required. lia.
Qed.

(** X6.  When the [--version] output of the tool has no occurrence of
    ["version <major>.<minor>.<patch>"], constructing an [ExecDriver]
    raises [AttributeError]; the [--version] call is the only command
    run. *)
Theorem new_probe_without_version name version executable minizinc w text :
  let driver := if is_None minizinc then default_driver w else minizinc in
  tool_version (ext w) (val driver) = Return text →
  no_occurrence "version " text →
  ExecDriver.new name version executable minizinc w
  = (Raise AttributeError,
     set_run_calls (run_calls w ++ [[val driver; VStr "--version"]]) w).
Proof.
  intros driver Ht Hno.
  apply search_version_triple_no_occurrence in Hno.
  pose proof (init_probe name minizinc w text Ht) as Hprobe. fold driver in Hprobe.
  rewrite Hno in Hprobe. simpl in Hprobe.
  by init_to_gate driver w Hprobe.
Qed.

Ltac init_past_gate name driver w :=
  rewrite (mbind_run _ _ _ tt
             (ExecDriver.__setattr__ "id" None_
                (ExecDriver.__setattr__ "name" name
                   (ExecDriver.__setattr__ "driver" driver ∅)),
              set_run_calls (run_calls w ++ [[val driver; VStr "--version"]]) w))
    by done;
  unfold mbind at 1, mlift at 1, ExecDriver.search_version_arg.

(** X7.  With a tool of version 2.2.0 or later, constructing an
    [ExecDriver] from a [version] argument that is no text raises
    [TypeError], and from a text without [<major>.<minor>.<patch>] raises
    [AttributeError]. *)
Theorem new_version_argument name version executable minizinc w text a b c :
  let driver := if is_None minizinc then default_driver w else minizinc in
  tool_version (ext w) (val driver) = Return text →
  first_occurrence "version " text (a, b, c) →
  (2 < int_of_digits a ∨ (int_of_digits a = 2 ∧ 2 ≤ int_of_digits b))%Z →
  match val version with
  | VStr s => no_occurrence "" s
  | _ => True
  end →
  ExecDriver.new name version executable minizinc w
  = (Raise (match val version with VStr _ => AttributeError | _ => TypeError end),
     set_run_calls (run_calls w ++ [[val driver; VStr "--version"]]) w).
Proof.
  intros driver Ht Hf Hok Hver.
  pose proof (probe_passes name minizinc w text a b c Ht Hf Hok) as Hprobe.
  fold driver in Hprobe.
  init_to_gate driver w Hprobe. init_past_gate name driver w.
  destruct (val version) as [| | |s| | | | |]; try done.
  apply search_triple_no_occurrence in Hver.
  unfold mbind at 1, mlift at 1. by rewrite Hver.
Qed.

(** [__init__] run to its end. *)
Lemma init_run name version executable minizinc w text a b c s x y z :
  let driver := if is_None minizinc then default_driver w else minizinc in
  tool_version (ext w) (val driver) = Return text →
  first_occurrence "version " text (a, b, c) →
  (2 < int_of_digits a ∨ (int_of_digits a = 2 ∧ 2 ≤ int_of_digits b))%Z →
  val version = VStr s →
  first_occurrence "" s (x, y, z) →
  ∃ d w',
    ExecDriver.__init__ name version executable minizinc (∅, w) = (Return tt, (d, w'))
    ∧ init_post name executable driver
        [int_of_digits x; int_of_digits y; int_of_digits z] d
    ∧ (∃ t f e, d !! "tags" = Some t ∧ d !! "stdFlags" = Some f
                ∧ d !! "extraFlags" = Some e
                ∧ addr t ≠ addr f ∧ addr t ≠ addr e ∧ addr f ≠ addr e
                ∧ (next_addr w ≤ addr t)%nat ∧ (next_addr w ≤ addr f)%nat
                ∧ (next_addr w ≤ addr e)%nat)
    ∧ run_calls w' = run_calls w ++ [[val driver; VStr "--version"]]
    ∧ files w' = files w ∧ environ w' = environ w ∧ ext w' = ext w
    ∧ default_driver w' = default_driver w ∧ tmp_seq w' = tmp_seq w.
Proof.
  intros driver Ht Hf Hok Hs Hx.
  pose proof (probe_passes name minizinc w text a b c Ht Hf Hok) as Hprobe.
  fold driver in Hprobe.
  apply search_triple_first_occurrence in Hx.
  destruct (ExecDriver.__init__ name version executable minizinc (∅, w))
    as [o [d w']] eqn:Hinit.
  pose proof Hinit as Hrun. revert Hrun.
  init_to_gate driver w Hprobe. init_past_gate name driver w.
  rewrite Hs. unfold mbind at 1, mlift at 1. rewrite Hx.
  cbv [groups_to_ints mbind ExecDriver.assign alloc mlift mret].
  intros [= <- <- <-]. rewrite <- Hinit. eexists _, _. split; [done|].
  apply init_Return in Hinit as (s' & ints & Hs' & Hints & Hpost).
  rewrite Hs in Hs'. injection Hs' as <-. rewrite Hx in Hints. injection Hints as <-.
  split; [exact Hpost|]. split; [|done].
  eexists _, _, _. split; [setattr_lookup|]. split; [setattr_lookup|].
  split; [setattr_lookup|]. simpl. lia.
Qed.

(** X8.  With a tool of version 2.2.0 or later and a [version] text whose
    first [<major>.<minor>.<patch>] is [x.y.z], constructing an
    [ExecDriver] returns a record: its required fields come from the
    arguments (the driver is the default driver when none is given), its
    version is the integer triple, every optional field has its default
    and [id] is [None]; [tags], [stdFlags] and [extraFlags] are three
    distinct new objects; the [--version] call is the only command run
    and no file or environment variable is touched. *)
Theorem new_defaults name version executable minizinc w text a b c s x y z :
  let driver := if is_None minizinc then default_driver w else minizinc in
  tool_version (ext w) (val driver) = Return text →
  first_occurrence "version " text (a, b, c) →
  (2 < int_of_digits a ∨ (int_of_digits a = 2 ∧ 2 ≤ int_of_digits b))%Z →
  val version = VStr s →
  first_occurrence "" s (x, y, z) →
  ∃ d w',
    ExecDriver.new name version executable minizinc w = (Return d, w')
    ∧ init_post name executable driver
        [int_of_digits x; int_of_digits y; int_of_digits z] d
    ∧ (∃ t f e, d !! "tags" = Some t ∧ d !! "stdFlags" = Some f
                ∧ d !! "extraFlags" = Some e
                ∧ addr t ≠ addr f ∧ addr t ≠ addr e ∧ addr f ≠ addr e
                ∧ (next_addr w ≤ addr t)%nat ∧ (next_addr w ≤ addr f)%nat
                ∧ (next_addr w ≤ addr e)%nat)
    ∧ run_calls w' = run_calls w ++ [[val driver; VStr "--version"]]
    ∧ files w' = files w ∧ environ w' = environ w.
Proof.
  intros driver Ht Hf Hok Hs Hx.
  destruct (init_run name version executable minizinc w text a b c s x y z
              Ht Hf Hok Hs Hx)
    as (d & w' & Hinit & Hpost & Hfresh & Hlog & Hfiles & Henv & _).
  exists d, w'. unfold ExecDriver.new, ExecDriver.construct. rewrite Hinit.
  exact (conj eq_refl (conj Hpost (conj Hfresh (conj Hlog (conj Hfiles Henv))))).
Qed.

(** ** Discovery, run forward *)

Lemma overlay_run info key self w m :
  self !! "mznlib" = Some m →
  ExecDriver.overlay info key (self, w)
  = (Return tt, (ExecDriver.__setattr__ key (ExecDriver.info_get info key m) self, w)).
Proof.
  intros H. unfold ExecDriver.overlay, mbind, ExecDriver.read, ExecDriver.getattr,
    ExecDriver.assign.
  by rewrite H.
Qed.

Lemma find_solver_first solver before info after names ns :
  Forall (λ d, ∃ l, candidate_names d = Some l ∧ (solver ∉ l)) before →
  candidate_names info = Some ns → solver ∈ ns →
  ∃ names',
    ExecDriver.find_solver solver (before ++ info :: after) (map VStr names)
    = Return (Some info, names').
Proof.
  intros Hb Hi Hin. revert names.
  induction Hb as [|d before (l & Hl & Hnot) Hb IH]; intros names; simpl.
  - rewrite (s_names_conforming _ _ Hi). simpl. rewrite hashable_strings.
    apply existsb_eq_str in Hin. rewrite Hin. eauto.
  - rewrite (s_names_conforming _ _ Hl). simpl. rewrite hashable_strings.
    destruct (existsb (eq_str solver) (map VStr l)) eqn:Hm.
    { by apply existsb_eq_str in Hm. }
    rewrite <- map_app. apply IH.
Qed.

Lemma candidate_names_id s ns :
  candidate_names s = Some ns →
  ∃ a i, dict_get s "id" = Some (Obj a (VStr i)).
Proof.
  unfold candidate_names.
  destruct (dict_get s "id") as [[a v]|]; [|done]. destruct v; try done. eauto.
Qed.

(** X9.  [ExecDriver.load_solver] on a registry whose first descriptor
    with the selector among its candidate names is [info] (with [name],
    [version] and [executable] present, a parseable version, and a tool of
    version 2.2.0 or later) returns a record whose name, executable and
    [id] are those of [info], whose version is the parsed triple and whose
    driver is the given one; it runs [--solvers-json] and then [--version],
    and touches no file. *)
Theorem load_solver_selects_first
    solver driver w before info after ns name version executable text a b c s x y z :
  let driver' := if is_None driver then default_driver w else driver in
  tool_solvers (ext w) (val driver) = Return (before ++ info :: after) →
  Forall (λ d, ∃ l, candidate_names d = Some l ∧ (solver ∉ l)) before →
  candidate_names info = Some ns → solver ∈ ns →
  dict_get info "name" = Some name →
  dict_get info "version" = Some version →
  dict_get info "executable" = Some executable →
  val version = VStr s → first_occurrence "" s (x, y, z) →
  tool_version (ext w) (val driver') = Return text →
  first_occurrence "version " text (a, b, c) →
  (2 < int_of_digits a ∨ (int_of_digits a = 2 ∧ 2 ≤ int_of_digits b))%Z →
  ∃ ret w',
    ExecDriver.load_solver solver driver w = (Return ret, w')
    ∧ ret !! "name" = Some name
    ∧ ret !! "executable" = Some executable
    ∧ ret !! "driver" = Some driver'
    ∧ val <$> ret !! "version"
      = Some (int_tuple [int_of_digits x; int_of_digits y; int_of_digits z])
    ∧ ret !! "id" = dict_get info "id"
    ∧ run_calls w'
      = run_calls w ++ [[val driver; VStr "--solvers-json"];
                        [val driver'; VStr "--version"]]
    ∧ files w' = files w.
Proof.
  intros driver' Hs Hb Hi Hin Hname Hversion Hexec Hv Hx Ht Hf Hok.
  destruct (find_solver_first solver before info after [] ns Hb Hi Hin)
    as (names' & Hfind).
  destruct (candidate_names_id _ _ Hi) as (ia & i & Hid).
  set (w0 := set_run_calls (run_calls w ++ [[val driver; VStr "--solvers-json"]]) w).
  destruct (init_run name version executable driver w0 text a b c s x y z
              Ht Hf Hok Hv Hx)
    as (d & w1 & Hinit & Hpost & _ & Hlog & Hfiles & _).
  unfold ExecDriver.load_solver, ExecDriver.construct, ExecDriver.load_solver_body.
  rewrite (mbind_run _ _ _ tt (∅, w0)) by done.
  rewrite (mbind_run _ _ _ (before ++ info :: after) (∅, w0))
    by (by simpl; rewrite Hs).
  unfold mbind at 1, mlift at 1. simpl in Hfind. rewrite Hfind.
  unfold getitem. rewrite Hname, Hversion, Hexec, Hid.
  unfold mbind at 1, mlift at 1. unfold mbind at 1, mlift at 1.
  unfold mbind at 1, mlift at 1.
  rewrite (mbind_run _ _ _ tt (d, w1) Hinit).
  destruct Hpost as [Hd Hn _ Hver Hex Hlib _ _ _ _ _ _ _ _ _].
  rewrite (mbind_run _ _ _ _ _ (overlay_run info "mznlib" d w1 empty_str Hlib)).
  set (m := ExecDriver.info_get info "mznlib" empty_str).
  repeat (erewrite (mbind_run _ _ _ _ _ (overlay_run info _ _ w1 m _))).
  unfold mbind at 1, mlift at 1. unfold ExecDriver.assign.
  eexists _, _. split; [reflexivity|].
  split; [by setattr_lookup|]. split; [by setattr_lookup|].
  split; [by setattr_lookup|].
  split; [by repeat (rewrite setattr_lookup_other by discriminate)|].
  split; [by rewrite setattr_lookup_key|].
  split; [|done]. rewrite Hlog. subst w0. simpl. by rewrite <- app_assoc.
  Unshelve. all: by setattr_lookup.
Qed.

(** ** A descriptor without a required key *)

(** X10.  When the selected descriptor lacks [name], [version] or
    [executable], [ExecDriver.load_solver] raises [KeyError] for the first
    of the three that is missing, in this order, and the registry query is
    the only command it has run. *)
Theorem load_solver_missing_key solver driver w before info after ns :
  tool_solvers (ext w) (val driver) = Return (before ++ info :: after) →
  Forall (λ d, ∃ l, candidate_names d = Some l ∧ (solver ∉ l)) before →
  candidate_names info = Some ns → solver ∈ ns →
  let w0 := set_run_calls (run_calls w ++ [[val driver; VStr "--solvers-json"]]) w in
  let result := ExecDriver.load_solver solver driver w in
  (dict_get info "name" = None → result = (Raise (KeyError "name"), w0))
  ∧ (is_Some (dict_get info "name") → dict_get info "version" = None →
     result = (Raise (KeyError "version"), w0))
  ∧ (is_Some (dict_get info "name") → is_Some (dict_get info "version") →
     dict_get info "executable" = None →
     result = (Raise (KeyError "executable"), w0)).
Proof.
  intros Hs Hb Hi Hin w0 result. subst result.
  destruct (find_solver_first solver before info after [] ns Hb Hi Hin)
    as (names' & Hfind).
  unfold ExecDriver.load_solver, ExecDriver.construct, ExecDriver.load_solver_body.
  rewrite (mbind_run _ _ _ tt (∅, w0)) by done.
  rewrite (mbind_run _ _ _ (before ++ info :: after) (∅, w0))
    by (by simpl; rewrite Hs).
  simpl in Hfind. rewrite Hfind.
  rewrite (mbind_run _ _ _ (Some info, names') (∅, w0)) by done.
  lazy beta iota. unfold getitem. split; [|split].
  - by intros ->.
  - by intros [name ->] ->.
  - by intros [name ->] [version ->] ->.
Qed.

(** ** The scope and the invocation, run forward *)

Section Invocation.
Import ExecDriver.

Lemma gated_passes_tokens rq flag tokens cmd self w stdFlags :
  self !! "stdFlags" = Some stdFlags → passes rq flag (val stdFlags) →
  gated rq flag tokens cmd (self, w)
  = (Return (cmd ++ option_tokens rq tokens), (self, w)).
Proof.
  intros Hs [->|Hp]; [by rewrite app_nil_r|].
  destruct rq; [|by rewrite app_nil_r].
  by rewrite (gated_check _ _ _ _ _ _ _ Hs Hp).
Qed.

Lemma build_cmd_passes solver files_ processes random_seed free_search
    self w driver stdFlags :
  self !! "driver" = Some driver →
  self !! "stdFlags" = Some stdFlags →
  passes (negb (is_None processes)) "-p" (val stdFlags) →
  passes (negb (is_None random_seed)) "-r" (val stdFlags) →
  passes (truthy (val free_search)) "-f" (val stdFlags) →
  build_cmd solver files_ processes random_seed free_search (self, w)
  = (Return (expected_cmd driver solver files_ processes random_seed free_search),
     (self, w)).
Proof.
  intros Hd Hs Hp Hr Hf. unfold build_cmd.
  rewrite (mbind_run _ _ _ driver (self, w)); [|unfold read, getattr; by rewrite Hd].
  rewrite (mbind_run _ _ _ _ _ (gated_passes_tokens _ _ _ _ _ _ _ Hs Hp)).
  rewrite (mbind_run _ _ _ _ _ (gated_passes_tokens _ _ _ _ _ _ _ Hs Hr)).
  rewrite (mbind_run _ _ _ _ _ (gated_passes_tokens _ _ _ _ _ _ _ Hs Hf)).
  unfold mret, expected_cmd. by rewrite <- !app_assoc.
Qed.

Lemma try_finally_no_cleanup {St A} (m : M St A) s :
  try_finally m (mret tt) s = m s.
Proof. unfold try_finally, mret. by destruct (m s). Qed.

(** X11.  For a record whose identity is not [None], the scope of
    [_gen_solver] is transparent: the body runs with that identity on the
    record and the world as they are, and what the body leaves is what the
    scope leaves; no file is created and the identity is not reset. *)
Theorem gen_solver_registered {A} (body : pyobj → Method A) self w id :
  self !! "id" = Some id → is_None id = false →
  _gen_solver body (self, w) = body id (self, w).
Proof.
  intros Hid Hnone. unfold _gen_solver.
  rewrite (mbind_run _ _ _ _ _ (gen_solver_enter_Some _ w _ Hid Hnone)).
  apply try_finally_no_cleanup.
Qed.

(** X12.  When the identity is [None] and [to_json] raises, the scope
    raises the same exception before its body starts: the body runs no
    command and the record is unchanged. *)
Theorem gen_solver_serialisation_failure {A} (body : pyobj → Method A) self w id e :
  self !! "id" = Some id → is_None id = true →
  to_json self = Raise e →
  has_free_name "minizinc_solver_" ".msc" w →
  (_gen_solver body (self, w)).1 = Raise e
  ∧ (_gen_solver body (self, w)).2.1 = self
  ∧ run_calls (_gen_solver body (self, w)).2.2 = run_calls w.
Proof.
  intros Hid Hnone Hdoc Hfree.
  destruct (NamedTemporaryFile_free _ _ self w Hfree) as (name & w1 & Htmp).
  pose proof (NamedTemporaryFile_Return _ _ _ _ _ _ _ Htmp) as (_ & _ & n & ->).
  assert (Henter : gen_solver_enter (self, w)
                   = (Raise e, (self, set_files (<[name:=None]> (files w))
                                        (set_tmp_seq n w)))).
  { unfold gen_solver_enter.
    rewrite (mbind_run _ _ _ id (self, w)); [|unfold read, getattr; by rewrite Hid].
    rewrite Hnone. rewrite (mbind_run _ _ _ _ _ Htmp).
    unfold mbind at 1. by rewrite Hdoc. }
  unfold _gen_solver. by rewrite (mbind_raise _ _ _ _ _ Henter).
Qed.

Lemma solve_outcome_run {St} (cmd : list pyval) (s : St) w :
  (output <- subprocess_run cmd ;; mret (from_process output))%M (s, w)
  = (solve_outcome (ext w) cmd, (s, set_run_calls (run_calls w ++ [cmd]) w)).
Proof.
  unfold subprocess_run, mbind, log_call, mret, solve_outcome.
  lazy beta iota zeta. cbn [ext set_run_calls].
  by destruct (launch (ext w) cmd).
Qed.

Lemma solve_outcome_cases o cmd :
  (∀ output, forallb launchable cmd = true → tool_run o cmd = Return output →
     solve_outcome o cmd = Return (from_process output))
  ∧ (∀ e, forallb launchable cmd = true → tool_run o cmd = Raise e →
       solve_outcome o cmd = Raise e)
  ∧ (forallb launchable cmd = false → solve_outcome o cmd = Raise TypeError).
Proof.
  unfold solve_outcome, launch.
  split; [|split]; [intros output -> ->|intros e -> ->|intros ->]; done.
Qed.

(** A requested option whose value is neither text nor a path makes the
    command one that cannot be started. *)
Lemma expected_cmd_token driver solver files_ processes random_seed free_search :
  (negb (is_None processes) && negb (launchable (val processes)))
  || (negb (is_None random_seed) && negb (launchable (val random_seed))) = true →
  forallb launchable
    (expected_cmd driver solver files_ processes random_seed free_search) = false.
Proof.
  intros H. unfold expected_cmd. rewrite !forallb_app.
  apply orb_true_iff in H as [H|H]; apply andb_true_iff in H as [-> H];
    apply negb_true_iff in H; cbn [option_tokens forallb]; rewrite H;
    by rewrite ?andb_false_r.
Qed.

(** X13.  [solve] on a record with an identity, when every requested
    option is among the standard flags: the command is the driver,
    [--solver], the identity, [--output-mode json --output-time], the
    tokens of the requested options in the order [-p], [-r], [-f], and the
    files; it is the only command given to [subprocess.run], and the
    record is unchanged.  When every argument of the command is text or a
    path, [solve] returns the result built from what the process gave,
    whatever its exit status, or raises what the launch raised.  When
    some argument is not, [subprocess.run] raises [TypeError]: so it is
    whenever a process count or a random seed is given as an integer. *)
Theorem solve_registered self w id driver stdFlags files_ processes random_seed
    free_search :
  self !! "id" = Some id → is_None id = false →
  self !! "driver" = Some driver →
  self !! "stdFlags" = Some stdFlags →
  passes (negb (is_None processes)) "-p" (val stdFlags) →
  passes (negb (is_None random_seed)) "-r" (val stdFlags) →
  passes (truthy (val free_search)) "-f" (val stdFlags) →
  let cmd := expected_cmd driver id files_ processes random_seed free_search in
  let result := solve files_ processes random_seed free_search (self, w) in
  result.2 = (self, set_run_calls (run_calls w ++ [cmd]) w)
  ∧ (∀ output, forallb launchable cmd = true → tool_run (ext w) cmd = Return output →
       result.1 = Return (from_process output))
  ∧ (∀ e, forallb launchable cmd = true → tool_run (ext w) cmd = Raise e →
       result.1 = Raise e)
  ∧ (forallb launchable cmd = false → result.1 = Raise TypeError)
  ∧ (is_None processes = false → launchable (val processes) = false →
     result.1 = Raise TypeError)
  ∧ (is_None random_seed = false → launchable (val random_seed) = false →
     result.1 = Raise TypeError).
Proof.
  intros Hid Hnone Hd Hs Hp Hr Hf cmd result.
  assert (Hrun : result
                 = (solve_outcome (ext w) cmd,
                    (self, set_run_calls (run_calls w ++ [cmd]) w))).
  { subst result. unfold solve, _gen_solver.
    rewrite (mbind_run _ _ _ _ _ (gen_solver_enter_Some _ w _ Hid Hnone)).
    etrans; [apply try_finally_no_cleanup|]. cbn [fst snd].
    rewrite (mbind_run _ _ _ _ _
               (build_cmd_passes _ _ _ _ _ _ w _ _ Hd Hs Hp Hr Hf)).
    apply solve_outcome_run. }
  rewrite Hrun. cbn [fst snd].
  destruct (solve_outcome_cases (ext w) cmd) as (Hret & Hraise & Htype).
  split; [done|]. split; [exact Hret|]. split; [exact Hraise|].
  split; [exact Htype|]. split.
  - intros Hn Hl. apply Htype, expected_cmd_token. by rewrite Hn, Hl.
  - intros Hn Hl. apply Htype, expected_cmd_token. rewrite Hn, Hl.
    apply orb_true_r.
Qed.

Lemma NamedTemporaryFile_frame {St} prefix suffix (s s' : St) w w' name :
  NamedTemporaryFile prefix suffix (s, w) = (Return name, (s', w')) →
  ext w' = ext w ∧ next_addr w' = next_addr w ∧ run_calls w' = run_calls w.
Proof.
  unfold NamedTemporaryFile.
  destruct (List.find _ _) as [n|] eqn:E; [|done].
  by intros [= <- <- <-].
Qed.

(** X14.  [solve] on a record without identity that can be serialised:
    the solver argument of the command is the name of a temporary file
    that did not exist before, this command is the only one given to
    [subprocess.run], and the outcome of [solve] is the one of this
    command: the result built from the completed process, the exception
    of a launch that fails, or [TypeError] when some argument is neither
    text nor a path. *)
Theorem solve_materialised self w id doc driver stdFlags files_ processes random_seed
    free_search :
  self !! "id" = Some id → is_None id = true →
  to_json self = Return doc →
  has_free_name "minizinc_solver_" ".msc" w →
  self !! "driver" = Some driver →
  self !! "stdFlags" = Some stdFlags →
  passes (negb (is_None processes)) "-p" (val stdFlags) →
  passes (negb (is_None random_seed)) "-r" (val stdFlags) →
  passes (truthy (val free_search)) "-f" (val stdFlags) →
  ∃ name,
    let cmd := expected_cmd driver (Obj (next_addr w) (VStr name)) files_
                 processes random_seed free_search in
    let result := solve files_ processes random_seed free_search (self, w) in
    files w !! name = None
    ∧ run_calls result.2.2 = run_calls w ++ [cmd]
    ∧ (∀ output, forallb launchable cmd = true →
         tool_run (ext w) cmd = Return output →
         result.1 = Return (from_process output))
    ∧ (∀ e, forallb launchable cmd = true → tool_run (ext w) cmd = Raise e →
         result.1 = Raise e)
    ∧ (forallb launchable cmd = false → result.1 = Raise TypeError).
Proof.
  intros Hid Hnone Hdoc Hfree Hd Hs Hp Hr Hf.
  destruct (NamedTemporaryFile_free _ _ self w Hfree) as (name & w1 & Htmp).
  pose proof (NamedTemporaryFile_Return _ _ _ _ _ _ _ Htmp) as (_ & Hfresh & _).
  pose proof (NamedTemporaryFile_frame _ _ _ _ _ _ _ Htmp) as (Hext & Ha & Hrc).
  pose proof (gen_solver_enter_None _ _ _ _ _ _ Hid Hnone Htmp Hdoc) as Henter.
  cbv zeta in Henter. rewrite Ha in Henter.
  exists name. cbv zeta. split; [done|].
  rewrite (solve_entered _ _ _ _ _ _ _ _ _ Henter).
  unfold try_finally.
  erewrite (mbind_run _ _ _ _ _ (build_cmd_passes _ _ _ _ _ _ _ driver stdFlags _ _ Hp Hr Hf)).
  rewrite solve_outcome_run.
  rewrite gen_solver_exit_Some by (simpl; rewrite lookup_insert_eq; by eexists).
  cbn [fst snd ext run_calls set_run_calls set_next_addr set_files].
  rewrite Hext, Hrc. split; [done|].
  exact (solve_outcome_cases (ext w) _).
  Unshelve.
  - by rewrite lookup_insert_ne.
  - by rewrite lookup_insert_ne.
Qed.

End Invocation.

(** ** Detection and dispatch *)

(** X16.  [find_minizinc] runs no command, touches no file and does not
    set the default driver.  Without a path it leaves the environment
    alone.  With a path, the environment has its former contents again
    when the library was loaded, and keeps [LD_LIBRARY_PATH] set to the
    joined path when loading failed: the restoring statement is skipped by
    the exception. *)
Theorem find_minizinc_environment (name : string) (path : option (list string))
    (w : world) :
  let found := find_minizinc name path w in
  default_driver found.2 = default_driver w
  ∧ run_calls found.2 = run_calls w
  ∧ files found.2 = files w
  ∧ environ found.2
    = match path with
      | None => environ w
      | Some dirs =>
          let env := <["LD_LIBRARY_PATH" := String.concat ":" dirs]> (environ w) in
          match LoadLibrary (ext w) env name with
          | Some _ => environ w
          | None => env
          end
      end.
Proof.
  unfold find_minizinc. destruct path as [dirs|]; cbn [environ set_environ].
  - destruct (LoadLibrary _ _ name); cbn [ext set_environ].
    + done.
    + destruct (shutil_which _ _ _) as [[p|]| |]; [destruct (truthy _)|..]; done.
  - destruct (LoadLibrary _ _ name).
    + done.
    + destruct (shutil_which _ _ _) as [[p|]| |]; [destruct (truthy _)|..]; done.
Qed.

(** Leaving the driver out is passing the default driver. *)
Lemma load_solver_defaulting (solver : string) (minizinc : pyobj) (w : world) :
  is_None minizinc = true →
  load_solver solver minizinc w = load_solver solver (default_driver w) w.
Proof.
  intros H. unfold load_solver. rewrite H.
  destruct (is_None (default_driver w)) eqn:E; lazy iota; by rewrite ?E.
Qed.

Lemma fresh_not_None w v :
  fresh_above_constants w → is_None (Obj (next_addr w) v) = false.
Proof.
  unfold fresh_above_constants, is_None, py_is. simpl. intros H.
  apply Nat.eqb_neq. lia.
Qed.

(** [load_solver] given a driver. *)
Lemma load_solver_given (solver : string) (o : pyobj) (w : world) :
  is_None o = false →
  load_solver solver o w
  = if is_library o then (Return LoadedNone, w)
    else as_loaded (ExecDriver.load_solver solver o w).
Proof. intros H. unfold load_solver. rewrite H. lazy iota. by rewrite H. Qed.

(** X17.  [find_minizinc] returns unless the library fails to load and
    [shutil.which] raises, and what [load_solver] does with what it
    returns: for a library handle it returns [None] (the inherited
    [load_solver] of [LibDriver] has an empty body) and runs nothing; for
    the path of an executable it is [ExecDriver.load_solver] with that
    path; and when nothing was found it falls back on the default
    driver. *)
Theorem find_then_load (name : string) (path : option (list string)) (w : world) :
  fresh_above_constants w →
  let env := match path with
             | None => environ w
             | Some dirs => <["LD_LIBRARY_PATH" := String.concat ":" dirs]> (environ w)
             end in
  let found := find_minizinc name path w in
  match LoadLibrary (ext w) env name, shutil_which (ext w) name path with
  | Some _, _ =>
      ∃ o, found.1 = Return o
           ∧ ∀ solver, load_solver solver o found.2 = (Return LoadedNone, found.2)
  | None, Return (Some _) =>
      ∃ o, found.1 = Return o
           ∧ ∀ solver, load_solver solver o found.2
                       = as_loaded (ExecDriver.load_solver solver o found.2)
  | None, Return None =>
      found.1 = Return None_
      ∧ ∀ solver, load_solver solver None_ found.2
                  = load_solver solver (default_driver w) found.2
  | None, Raise e => found.1 = Raise e
  | None, Unmodelled => found.1 = Unmodelled
  end.
Proof.
  intros Hw env found. subst env found.
  destruct (LoadLibrary _ _ name) as [h|] eqn:Hlib.
  - unfold find_minizinc.
    destruct path as [dirs|]; cbn [environ set_environ] in *; rewrite Hlib;
      cbn [fst snd next_addr set_environ];
      (eexists; split; [reflexivity|]; intros solver;
       by rewrite load_solver_given by apply (fresh_not_None w _ Hw)).
  - destruct (find_minizinc_fallback name path w Hlib) as (w' & Hdd & ->).
    destruct (shutil_which (ext w) name path) as [[p|]| |]; [| |done|done].
    + destruct (truthy (VStr p)); cbn [fst snd];
        (eexists; split; [reflexivity|]; intros solver;
         by rewrite load_solver_given by apply (fresh_not_None w _ Hw)).
    + cbn [fst snd]. split; [done|]. intros solver.
      by rewrite load_solver_defaulting, Hdd.
Qed.

(** ** The version text, printed and read back *)

Lemma all_digits_app a b :
  all_digits (a +:+ b) = all_digits a && all_digits b.
Proof.
  unfold all_digits. induction a as [|c a IH]; sapp; simpl; [done|].
  by rewrite IH, andb_assoc.
Qed.

Lemma pretty_N_char_digit r :
  (r < 10)%N →
  is_digit (pretty_N_char r) = true ∧ digit_value (pretty_N_char r) = Z.of_N r.
Proof.
  intros H.
  assert (r = 0 ∨ r = 1 ∨ r = 2 ∨ r = 3 ∨ r = 4 ∨ r = 5 ∨ r = 6 ∨ r = 7 ∨ r = 8
          ∨ r = 9)%N as Hr by lia.
  repeat (destruct Hr as [->|Hr]; [by vm_compute|]). subst. by vm_compute.
Qed.

(** The digits that [pretty] puts in front of its accumulator. *)
Lemma pretty_N_go_digits x s :
  ∃ p, pretty_N_go x s = p +:+ s
       ∧ all_digits p = true
       ∧ ((0 < x)%N → p ≠ "")
       ∧ int_of_digits p = Z.of_N x.
Proof.
  revert s. induction (N.lt_wf_0 x) as [x _ IH]; intros s.
  destruct (decide (x = 0)%N) as [->|Hx].
  - exists "". rewrite pretty_N_go_0. sapp.
    split; [done|]. split; [done|]. split; [lia|done].
  - rewrite pretty_N_go_step by lia.
    destruct (IH (x `div` 10)%N) with (s := String (pretty_N_char (x `mod` 10)) s)
      as (p & -> & Hd & _ & Hv).
    { apply N.div_lt; lia. }
    destruct (pretty_N_char_digit (x `mod` 10)%N) as [Hc1 Hc2].
    { apply N.mod_lt. lia. }
    exists (p +:+ String (pretty_N_char (x `mod` 10)) "").
    split; [by rewrite app_assoc_s; sapp|]. split.
    { rewrite all_digits_app, Hd. unfold all_digits. simpl. by rewrite Hc1. }
    split.
    { intros _. by destruct p. }
    rewrite int_of_digits_snoc, Hv, Hc2.
    rewrite (N.div_mod x 10) at 3 by done. lia.
Qed.

Lemma str_of_Z_digits (z : Z) :
  (0 ≤ z)%Z → digits (str_of_Z z) ∧ int_of_digits (str_of_Z z) = z.
Proof.
  intros Hz. unfold str_of_Z, pretty, pretty_Z.
  destruct z as [|p|p]; [by vm_compute| |lia].
  unfold pretty, pretty_positive, pretty, pretty_N.
  destruct (decide (N.pos p = 0)%N) as [|_]; [done|].
  destruct (pretty_N_go_digits (N.pos p) "") as (d & -> & Hd & Hne & Hv).
  rewrite app_nil_r_s. split; [split; [apply Hne; lia|done]|].
  by rewrite Hv.
Qed.

Lemma search_triple_exact a b c :
  digits a → digits b → digits c →
  search_triple (String.concat "." [a; b; c]) = Some (a, b, c).
Proof.
  intros Ha Hb Hc. apply search_triple_first_occurrence.
  exists "", "". split; [|split; [done|intros; simpl; lia]].
  split; [|done]. simpl. sapp. by rewrite app_nil_r_s.
Qed.

(** X19.  The version text that [to_json] prints for a triple of
    non-negative integers, read back the way [__init__] reads a version,
    gives the same triple. *)
Theorem version_text_round_trip (a b c : Z) :
  (0 ≤ a)%Z → (0 ≤ b)%Z → (0 ≤ c)%Z →
  (m <- ExecDriver.search_version_arg
          (VStr (String.concat "." (map str_of_Z [a; b; c]))) ;;
   groups_to_ints m)%outcome
  = Return [a; b; c].
Proof.
  intros Ha Hb Hc.
  destruct (str_of_Z_digits a Ha) as [Hda Hva].
  destruct (str_of_Z_digits b Hb) as [Hdb Hvb].
  destruct (str_of_Z_digits c Hc) as [Hdc Hvc].
  cbn [ExecDriver.search_version_arg map obind].
  rewrite (search_triple_exact _ _ _ Hda Hdb Hdc). simpl.
  by rewrite Hva, Hvb, Hvc.
Qed.

(** ** Serialisation, run forward *)

Lemma omap_py_str_ints (ints : list Z) :
  omap py_str (map VInt ints) = Return (map str_of_Z ints).
Proof. induction ints as [|z l IH]; [done|]. simpl. by rewrite IH. Qed.

Lemma to_json_run (self : ExecDriver.inst)
    name version mznlib tags executable supportsMzn supportsFzn needsSolns2Out
    needsMznExecutable needsStdlibDir isGUIApplication id parts strs id_entry
    j1 j3 j4 j5 j6 j7 j8 j9 j10 j11 j12 :
  self !! "name" = Some name → self !! "version" = Some version →
  self !! "mznlib" = Some mznlib → self !! "tags" = Some tags →
  self !! "executable" = Some executable →
  self !! "supportsMzn" = Some supportsMzn → self !! "supportsFzn" = Some supportsFzn →
  self !! "needsSolns2Out" = Some needsSolns2Out →
  self !! "needsMznExecutable" = Some needsMznExecutable →
  self !! "needsStdlibDir" = Some needsStdlibDir →
  self !! "isGUIApplication" = Some isGUIApplication →
  self !! "id" = Some id →
  py_iter (val version) = Return parts → omap py_str parts = Return strs →
  (if is_None id
   then (n <- ExecDriver.name_lower (val name) ;;
         Return (VStr ("org.minizinc.python." +:+ n)))%outcome
   else Return (val id)) = Return id_entry →
  json_dumps (val name) = Return j1 → json_dumps (val mznlib) = Return j3 →
  json_dumps (val tags) = Return j4 → json_dumps (val executable) = Return j5 →
  json_dumps (val supportsMzn) = Return j6 → json_dumps (val supportsFzn) = Return j7 →
  json_dumps (val needsSolns2Out) = Return j8 →
  json_dumps (val needsMznExecutable) = Return j9 →
  json_dumps (val needsStdlibDir) = Return j10 →
  json_dumps (val isGUIApplication) = Return j11 →
  json_dumps id_entry = Return j12 →
  ExecDriver.to_json self
  = Return (JObj
      [("executable", j5); ("id", j12); ("isGUIApplication", j11);
       ("mznlib", j3); ("name", j1); ("needsMznExecutable", j9);
       ("needsSolns2Out", j8); ("needsStdlibDir", j10);
       ("supportsFzn", j7); ("supportsMzn", j6); ("tags", j4);
       ("version", JStr (String.concat "." strs))]).
Proof.
  intros Hname Hversion Hmznlib Htags Hexecutable HsupportsMzn HsupportsFzn
    HneedsSolns2Out HneedsMznExecutable HneedsStdlibDir HisGUIApplication Hid
    Hparts Hstrs Hentry H1 H3 H4 H5 H6 H7 H8 H9 H10 H11 H12.
  unfold ExecDriver.to_json, ExecDriver.getattr.
  rewrite Hname, Hversion, Hmznlib, Htags, Hexecutable, HsupportsMzn, HsupportsFzn,
    HneedsSolns2Out, HneedsMznExecutable, HneedsStdlibDir, HisGUIApplication, Hid.
  cbn [obind]. rewrite Hparts. cbn [obind]. rewrite Hstrs. cbn [obind].
  rewrite Hentry. cbn [obind app]. simpl json_dumps.
  rewrite H1, H3, H4, H5, H6, H7, H8, H9, H10, H11, H12. cbn [obind].
  by rewrite sort_members_info.
Qed.

Lemma lookup_val (self : ExecDriver.inst) key v :
  val <$> self !! key = Some v → ∃ o, self !! key = Some o ∧ val o = v.
Proof. destruct (self !! key) as [o|]; [|done]. intros [= <-]. by exists o. Qed.

(** X18.  The document of a record as the constructor leaves it, for a
    textual name and a serialisable [executable]: every capability field
    has its default, the identity is [org.minizinc.python.] followed by
    the lowercased name, and the version is the parsed triple printed with
    dots. *)
Theorem to_json_of_new name version executable minizinc w d w' n j :
  ExecDriver.new name version executable minizinc w = (Return d, w') →
  val name = VStr n →
  json_dumps (val executable) = Return j →
  ∃ ints,
    val <$> d !! "version" = Some (int_tuple ints)
    ∧ ExecDriver.to_json d
      = Return (JObj
          [("executable", j);
           ("id", JStr ("org.minizinc.python." +:+ lower n));
           ("isGUIApplication", JBool false);
           ("mznlib", JStr "");
           ("name", JStr n);
           ("needsMznExecutable", JBool false);
           ("needsSolns2Out", JBool false);
           ("needsStdlibDir", JBool false);
           ("supportsFzn", JBool true);
           ("supportsMzn", JBool false);
           ("tags", JArr []);
           ("version", JStr (String.concat "." (map str_of_Z ints)))]).
Proof.
  intros Hnew Hn Hj.
  apply new_Return in Hnew as (s & ints & _ & _ & Hpost).
  destruct Hpost as [_ Hname Hid Hversion Hexec Hmznlib Htags _ _ H6 H7 H8 H9 H10 H11].
  exists ints. split; [done|].
  apply lookup_val in Hversion as (v & Hversion & Hv).
  apply lookup_val in Htags as (t & Htags & Ht).
  eapply (to_json_run d name v empty_str t executable False_ True_ False_ False_ False_
            False_ None_ (map VInt ints) (map str_of_Z ints)
            (VStr ("org.minizinc.python." +:+ lower n)));
    try done.
  - by rewrite Hv.
  - apply omap_py_str_ints.
  - cbn [is_None py_is None_ addr Nat.eqb]. by rewrite Hn.
  - by rewrite Hn.
  - by rewrite Ht.
Qed.

(** ** Serialisation after a capability change *)

(** X20.  After a capability field has been assigned another object, the
    document of [to_json] carries the synthetic identity
    [org.minizinc.python.<lowercased name>], whatever identity the record
    had before. *)
Theorem to_json_after_capability_change
    (self : ExecDriver.inst) (key : string) (value : pyobj) (doc : json) :
  key ∈ ExecDriver.intercepted →
  py_is (ExecDriver.getattr_default self key None_) value = false →
  ExecDriver.to_json (ExecDriver.__setattr__ key value self) = Return doc →
  ∃ name n members,
    self !! "name" = Some name ∧ val name = VStr n
    ∧ doc = JObj members
    ∧ dict_get members "id" = Some (JStr ("org.minizinc.python." +:+ lower n)).
Proof.
  intros Hkey Hnew Hdoc.
  assert (Hinv : ExecDriver.invalidates key value self = true).
  { rewrite invalidates_intercepted by done. by rewrite Hnew. }
  assert (Hid : ExecDriver.__setattr__ key value self !! "id" = Some None_).
  { unfold ExecDriver.__setattr__, ExecDriver.object_setattr. rewrite Hinv.
    rewrite lookup_insert_ne by (intros ->; by apply id_not_intercepted).
    apply lookup_insert_eq. }
  assert (Hname : ExecDriver.__setattr__ key value self !! "name" = self !! "name").
  { apply setattr_lookup_other; [|done]. intros <-. by apply name_not_intercepted. }
  apply to_json_inv in Hdoc
    as (name & version & mznlib & tags & executable & supportsMzn & supportsFzn
        & needsSolns2Out & needsMznExecutable & needsStdlibDir & isGUIApplication
        & id & parts & strs & id_entry & j1 & j3 & j4 & j5 & j6 & j7 & j8 & j9
        & j10 & j11 & j12 & Hn & _ & _ & _ & _ & _ & _ & _ & _ & _ & _ & Hi & _ & _
        & Hentry & _ & _ & _ & _ & _ & _ & _ & _ & _ & _ & H12 & ->).
  rewrite Hid in Hi. injection Hi as <-. rewrite Hname in Hn.
  change (is_None None_) with true in Hentry. cbv iota in Hentry.
  unfold ExecDriver.name_lower in Hentry.
  destruct (val name) as [| | |n| | | | |] eqn:Hv; try done.
  simpl in Hentry. injection Hentry as <-. simpl in H12. injection H12 as <-.
  exists name, n. eexists. split; [done|]. split; [done|]. split; reflexivity.
Qed.

(** ** The further properties at the sample data *)

Lemma constructed_eq :
  ExecDriver.new (Obj 21 (VStr "Gecode")) (Obj 22 (VStr "6.1.0"))
    (Obj 23 (VStr "fzn-gecode")) minizinc_path sample_world
  = (Return constructed.1, constructed.2).
Proof.
  assert (H : match (ExecDriver.new (Obj 21 (VStr "Gecode")) (Obj 22 (VStr "6.1.0"))
                       (Obj 23 (VStr "fzn-gecode")) minizinc_path sample_world).1 with
              | Return _ => true
              | _ => false
              end = true) by (by vm_compute).
  unfold constructed.
  by destruct (ExecDriver.new (Obj 21 (VStr "Gecode")) (Obj 22 (VStr "6.1.0"))
                 (Obj 23 (VStr "fzn-gecode")) minizinc_path sample_world)
    as [[d| |] w].
Qed.

Lemma new_version_gate_witness :
  ExecDriver.new (Obj 21 (VStr "Gecode")) (Obj 22 (VStr "6.1.0"))
    (Obj 23 (VStr "fzn-gecode")) minizinc_path (host "minizinc, version 2.1.7")
  = (Raise AssertionError,
     set_run_calls [[VPath "/usr/bin/minizinc"; VStr "--version"]]
       (host "minizinc, version 2.1.7")).
Proof.
  apply (proj2 (new_version_gate (Obj 21 (VStr "Gecode")) (Obj 22 (VStr "6.1.0"))
                  (Obj 23 (VStr "fzn-gecode")) minizinc_path
                  (host "minizinc, version 2.1.7") "minizinc, version 2.1.7"
                  "2" "1" "7" eq_refl
                  (proj1 (search_version_triple_first_occurrence
                            "minizinc, version 2.1.7" ("2", "1", "7")) eq_refl))).
  right. by vm_compute.
Defined.

Lemma new_probe_without_version_witness :
  ExecDriver.new (Obj 21 (VStr "Gecode")) (Obj 22 (VStr "6.1.0"))
    (Obj 23 (VStr "fzn-gecode")) minizinc_path (host "MiniZinc 2.5.3")
  = (Raise AttributeError,
     set_run_calls [[VPath "/usr/bin/minizinc"; VStr "--version"]]
       (host "MiniZinc 2.5.3")).
Proof.
  apply (new_probe_without_version (Obj 21 (VStr "Gecode")) (Obj 22 (VStr "6.1.0"))
           (Obj 23 (VStr "fzn-gecode")) minizinc_path (host "MiniZinc 2.5.3")
           "MiniZinc 2.5.3" eq_refl).
  apply search_version_triple_no_occurrence. by vm_compute.
Defined.

Lemma new_version_argument_witness :
  ExecDriver.new (Obj 21 (VStr "Gecode")) (Obj 22 (VInt 6))
    (Obj 23 (VStr "fzn-gecode")) minizinc_path sample_world
  = (Raise TypeError,
     set_run_calls [[VPath "/usr/bin/minizinc"; VStr "--version"]] sample_world)
  ∧ ExecDriver.new (Obj 21 (VStr "Gecode")) (Obj 22 (VStr "6.1"))
      (Obj 23 (VStr "fzn-gecode")) minizinc_path sample_world
    = (Raise AttributeError,
       set_run_calls [[VPath "/usr/bin/minizinc"; VStr "--version"]] sample_world).
Proof.
  split.
  - apply (new_version_argument (Obj 21 (VStr "Gecode")) (Obj 22 (VInt 6))
             (Obj 23 (VStr "fzn-gecode")) minizinc_path sample_world
             "MiniZinc to FlatZinc converter, version 2.2.3" "2" "2" "3" eq_refl
             (proj1 (search_version_triple_first_occurrence
                       "MiniZinc to FlatZinc converter, version 2.2.3"
                       ("2", "2", "3")) eq_refl)).
    + right. by vm_compute.
    + exact I.
  - apply (new_version_argument (Obj 21 (VStr "Gecode")) (Obj 22 (VStr "6.1"))
             (Obj 23 (VStr "fzn-gecode")) minizinc_path sample_world
             "MiniZinc to FlatZinc converter, version 2.2.3" "2" "2" "3" eq_refl
             (proj1 (search_version_triple_first_occurrence
                       "MiniZinc to FlatZinc converter, version 2.2.3"
                       ("2", "2", "3")) eq_refl)).
    + right. by vm_compute.
    + apply search_triple_no_occurrence. by vm_compute.
Defined.

Lemma new_defaults_witness :
  ∃ d w',
    ExecDriver.new (Obj 21 (VStr "Gecode")) (Obj 22 (VStr "release 06.1.0-rc"))
      (Obj 23 (VStr "fzn-gecode")) None_
      (World 100 minizinc_path ∅ 0 ∅ [] sample_outside)
    = (Return d, w')
    ∧ d !! "driver" = Some minizinc_path
    ∧ val <$> d !! "version" = Some (VTuple [VInt 6; VInt 1; VInt 0])
    ∧ d !! "supportsFzn" = Some True_
    ∧ run_calls w' = [[VPath "/usr/bin/minizinc"; VStr "--version"]].
Proof.
  destruct (new_defaults (Obj 21 (VStr "Gecode")) (Obj 22 (VStr "release 06.1.0-rc"))
              (Obj 23 (VStr "fzn-gecode")) None_
              (World 100 minizinc_path ∅ 0 ∅ [] sample_outside)
              "MiniZinc to FlatZinc converter, version 2.2.3" "2" "2" "3"
              "release 06.1.0-rc" "06" "1" "0" eq_refl
              (proj1 (search_version_triple_first_occurrence
                       "MiniZinc to FlatZinc converter, version 2.2.3"
                       ("2", "2", "3")) eq_refl))
    as (d & w' & Hnew & Hpost & _ & Hlog & _).
  - right. by vm_compute.
  - reflexivity.
  - apply search_triple_first_occurrence. by vm_compute.
  - exists d, w'.
    exact (conj Hnew (conj (init_driver _ _ _ _ _ Hpost)
             (conj (init_version _ _ _ _ _ Hpost)
                (conj (init_supportsFzn _ _ _ _ _ Hpost) Hlog)))).
Defined.

Lemma load_solver_selects_first_witness :
  ∃ ret w',
    ExecDriver.load_solver "cp" minizinc_path sample_world = (Return ret, w')
    ∧ ret !! "name" = Some (Obj 31 (VStr "Chuffed"))
    ∧ ret !! "id" = Some (Obj 30 (VStr "org.chuffed.chuffed"))
    ∧ val <$> ret !! "version" = Some (VTuple [VInt 0; VInt 10; VInt 3])
    ∧ run_calls w' = [[VPath "/usr/bin/minizinc"; VStr "--solvers-json"];
                      [VPath "/usr/bin/minizinc"; VStr "--version"]].
Proof.
  destruct (load_solver_selects_first "cp" minizinc_path sample_world
              [gecode] chuffed [] ["org.chuffed.chuffed"; "chuffed"; "cp"; "lcg"; "int"]
              (Obj 31 (VStr "Chuffed")) (Obj 32 (VStr "0.10.3"))
              (Obj 33 (VStr "fzn-chuffed"))
              "MiniZinc to FlatZinc converter, version 2.2.3" "2" "2" "3"
              "0.10.3" "0" "10" "3" eq_refl)
    as (ret & w' & Hload & Hname & _ & _ & Hversion & Hid & Hlog & _).
  - constructor; [|constructor].
    exists ["org.gecode.gecode"; "gecode"]. split; [reflexivity|].
    apply (bool_decide_unpack _). by vm_compute.
  - reflexivity.
  - apply (bool_decide_unpack _). by vm_compute.
  - reflexivity.
  - reflexivity.
  - reflexivity.
  - reflexivity.
  - apply search_triple_first_occurrence. by vm_compute.
  - reflexivity.
  - apply search_version_triple_first_occurrence. by vm_compute.
  - right. by vm_compute.
  - exists ret, w'.
    exact (conj Hload (conj Hname (conj Hid (conj Hversion Hlog)))).
Defined.

Lemma load_solver_missing_key_witness :
  ExecDriver.load_solver "solver" minizinc_path unversioned_world
  = (Raise (KeyError "version"),
     set_run_calls [[VPath "/usr/bin/minizinc"; VStr "--solvers-json"]]
       unversioned_world).
Proof.
  refine (proj1 (proj2 (load_solver_missing_key "solver" minizinc_path
                          unversioned_world [gecode] unversioned []
                          ["org.example.solver"; "solver"] eq_refl _ eq_refl _)) _ _).
  - constructor; [|constructor].
    exists ["org.gecode.gecode"; "gecode"]. split; [reflexivity|].
    apply (bool_decide_unpack _). by vm_compute.
  - apply (bool_decide_unpack _). by vm_compute.
  - by eexists.
  - reflexivity.
Defined.

Lemma gen_solver_registered_witness :
  ExecDriver._gen_solver (λ solver, mret (val solver)) (registered, constructed.2)
  = (Return (VStr "org.gecode.gecode"), (registered, constructed.2)).
Proof.
  exact (gen_solver_registered (λ solver, mret (val solver)) registered constructed.2
           (Obj 70 (VStr "org.gecode.gecode")) eq_refl eq_refl).
Defined.

Lemma gen_solver_serialisation_failure_witness :
  let result :=
    ExecDriver._gen_solver
      (λ solver, subprocess_run [VStr "minizinc"; val solver])
      (misnamed, constructed.2) in
  result.1 = Raise AttributeError
  ∧ result.2.1 = misnamed
  ∧ run_calls result.2.2 = run_calls constructed.2.
Proof.
  apply (gen_solver_serialisation_failure
           (λ solver, subprocess_run [VStr "minizinc"; val solver])
           misnamed constructed.2 None_ AttributeError).
  - reflexivity.
  - reflexivity.
  - by vm_compute.
  - exists 0%nat. split; [vm_compute; lia|reflexivity].
Defined.

Lemma solve_registered_witness :
  let with_seed :=
    ExecDriver.solve [VPath "model.mzn"] None_ (Obj 62 (VInt 7)) False_
      (registered, constructed.2) in
  let plain :=
    ExecDriver.solve [VPath "model.mzn"] None_ None_ True_
      (registered, constructed.2) in
  with_seed.1 = Raise TypeError
  ∧ with_seed.2
    = (registered,
       set_run_calls
         (run_calls constructed.2
          ++ [[VPath "/usr/bin/minizinc"; VStr "--solver"; VStr "org.gecode.gecode";
               VStr "--output-mode"; VStr "json"; VStr "--output-time";
               VStr "-r"; VInt 7; VPath "model.mzn"]])
         constructed.2)
  ∧ plain.1 = Return (from_process (Completed 0 "" "")).
Proof.
  intros with_seed plain.
  destruct (solve_registered registered constructed.2 (Obj 70 (VStr "org.gecode.gecode"))
              minizinc_path (Obj 60 (VList [VStr "-p"; VStr "-r"; VStr "-f"]))
              [VPath "model.mzn"] None_ (Obj 62 (VInt 7)) False_)
    as (Hstate & _ & _ & _ & _ & Hseed).
  1-4: reflexivity.
  1: by left.
  1: by right.
  1: by left.
  destruct (solve_registered registered constructed.2 (Obj 70 (VStr "org.gecode.gecode"))
              minizinc_path (Obj 60 (VList [VStr "-p"; VStr "-r"; VStr "-f"]))
              [VPath "model.mzn"] None_ None_ True_)
    as (_ & Hret & _).
  1-4: reflexivity.
  1: by left.
  1: by left.
  1: by right.
  split; [exact (Hseed eq_refl eq_refl)|]. split; [exact Hstate|].
  exact (Hret (Completed 0 "" "") eq_refl eq_refl).
Defined.

Lemma solve_materialised_witness :
  ∃ name,
    let result := ExecDriver.solve [VPath "model.mzn"] None_ None_ True_
                    (flagged, constructed.2) in
    files constructed.2 !! name = None
    ∧ run_calls result.2.2
      = run_calls constructed.2
        ++ [[VPath "/usr/bin/minizinc"; VStr "--solver"; VStr name;
             VStr "--output-mode"; VStr "json"; VStr "--output-time";
             VStr "-f"; VPath "model.mzn"]]
    ∧ result.1 = Return (from_process (Completed 0 "" "")).
Proof.
  destruct (solve_materialised flagged constructed.2 None_
              (JObj [("executable", JStr "fzn-gecode");
                     ("id", JStr "org.minizinc.python.gecode");
                     ("isGUIApplication", JBool false);
                     ("mznlib", JStr "");
                     ("name", JStr "Gecode");
                     ("needsMznExecutable", JBool false);
                     ("needsSolns2Out", JBool false);
                     ("needsStdlibDir", JBool false);
                     ("supportsFzn", JBool true);
                     ("supportsMzn", JBool false);
                     ("tags", JArr []);
                     ("version", JStr "6.1.0")])
              minizinc_path (Obj 60 (VList [VStr "-p"; VStr "-r"; VStr "-f"]))
              [VPath "model.mzn"] None_ None_ True_)
    as (name & Hfresh & Hlog & Hret & _).
  - reflexivity.
  - reflexivity.
  - by vm_compute.
  - exists 0%nat. split; [vm_compute; lia|reflexivity].
  - reflexivity.
  - reflexivity.
  - by left.
  - by left.
  - by right.
  - exists name.
    exact (conj Hfresh (conj Hlog (Hret (Completed 0 "" "") eq_refl eq_refl))).
Defined.

Lemma solve_releases_witness :
  let result := ExecDriver.solve [VPath "model.mzn"] None_ None_ False_
                  (constructed.1, constructed.2) in
  result.2.1 !! "id" = Some None_ ∧ files result.2.2 = files constructed.2.
Proof.
  refine (proj2 (solve_releases constructed.1 constructed.2 None_ constructed_doc
                   [VPath "model.mzn"] None_ None_ False_ eq_refl eq_refl _ _)).
  - by vm_compute.
  - exists 0%nat. split; [vm_compute; lia|reflexivity].
Defined.

Lemma find_then_load_witness :
  (∃ o, (find_minizinc "minizinc" None library_world).1 = Return o
        ∧ ∀ solver,
            load_solver solver o (find_minizinc "minizinc" None library_world).2
            = (Return LoadedNone, (find_minizinc "minizinc" None library_world).2))
  ∧ (find_minizinc "minizinc" (Some ["/opt/minizinc/bin"]) bare_world).1
    = Raise TypeError.
Proof.
  split.
  - apply (find_then_load "minizinc" None library_world).
    unfold fresh_above_constants. simpl. lia.
  - apply (find_then_load "minizinc" (Some ["/opt/minizinc/bin"]) bare_world).
    unfold fresh_above_constants. simpl. lia.
Defined.

Lemma to_json_of_new_witness :
  ExecDriver.to_json constructed.1
  = Return (JObj [("executable", JStr "fzn-gecode");
                  ("id", JStr "org.minizinc.python.gecode");
                  ("isGUIApplication", JBool false);
                  ("mznlib", JStr "");
                  ("name", JStr "Gecode");
                  ("needsMznExecutable", JBool false);
                  ("needsSolns2Out", JBool false);
                  ("needsStdlibDir", JBool false);
                  ("supportsFzn", JBool true);
                  ("supportsMzn", JBool false);
                  ("tags", JArr []);
                  ("version", JStr "6.1.0")]).
Proof.
  destruct (to_json_of_new (Obj 21 (VStr "Gecode")) (Obj 22 (VStr "6.1.0"))
              (Obj 23 (VStr "fzn-gecode")) minizinc_path sample_world
              constructed.1 constructed.2 "Gecode" (JStr "fzn-gecode")
              constructed_eq eq_refl eq_refl)
    as (ints & Hv & Hdoc).
  rewrite Hdoc. by vm_compute.
Defined.

Lemma version_text_round_trip_witness :
  (m <- ExecDriver.search_version_arg (VStr "6.1.0") ;; groups_to_ints m)%outcome
  = Return [6; 1; 0]%Z.
Proof.
  exact (version_text_round_trip 6 1 0 ltac:(lia) ltac:(lia) ltac:(lia)).
Defined.

Lemma to_json_after_capability_change_witness :
  registered !! "id" = Some (Obj 70 (VStr "org.gecode.gecode"))
  ∧ ∃ name n members,
      registered !! "name" = Some name ∧ val name = VStr n
      ∧ ExecDriver.to_json retagged = Return (JObj members)
      ∧ dict_get members "id" = Some (JStr ("org.minizinc.python." +:+ lower n)).
Proof.
  split; [reflexivity|].
  destruct (to_json_after_capability_change registered "tags"
              (Obj 81 (VList [VStr "cp"]))
              (JObj [("executable", JStr "fzn-gecode");
                     ("id", JStr "org.minizinc.python.gecode");
                     ("isGUIApplication", JBool false);
                     ("mznlib", JStr "");
                     ("name", JStr "Gecode");
                     ("needsMznExecutable", JBool false);
                     ("needsSolns2Out", JBool false);
                     ("needsStdlibDir", JBool false);
                     ("supportsFzn", JBool true);
                     ("supportsMzn", JBool false);
                     ("tags", JArr [JStr "cp"]);
                     ("version", JStr "6.1.0")]))
    as (name & n & members & Hname & Hn & Hdoc & Hid).
  - apply (bool_decide_unpack _). by vm_compute.
  - by vm_compute.
  - by vm_compute.
  - exists name, n, members. injection Hdoc as <-.
    split; [exact Hname|]. split; [exact Hn|]. split; [by vm_compute|exact Hid].
Defined.
